(** * The Step Functions pipeline of the POC repository

    A shallow embedding of the five Lambda handlers under [src/lambda]
    (provider endpoint, decryption, organisation extraction, Cloudflare
    fetch, preparation of the S3 files) and of the CSV conversion, with the
    properties the specification states about them, and of the helpers of
    [createStateMachine.ts] that try an operation again.

    Conventions of the embedding:
    - a value of TypeScript type [any] is a JSON value or [undefined];
      an object is the list of its own enumerable properties in the order
      [for ... in] enumerates them, every key once;
    - strings are sequences of code units ([ascii] stands for one unit);
    - an exception is the [Error] it carries; a computation that may throw
      returns an [outcome];
    - the system clock, the S3 bucket and the network are fields of a
      [World] that the handlers thread through their steps;
    - [console.log] and [console.error] have no effect on a result and are
      left out; the reads inside their arguments that can throw are kept. *)

From Stdlib Require Import List String Ascii Bool ZArith Lia Arith.
From Stdlib Require Import DecimalString.
From Stdlib Require DecimalNat.
Import ListNotations.
Local Open Scope list_scope.
Local Open Scope string_scope.

(** ** Strings *)

(** [String.prototype.split] with a separator of one code unit. *)
Fixpoint split (sep : ascii) (s : string) : list string :=
  match s with
  | EmptyString => [EmptyString]
  | String c rest =>
      if Ascii.eqb c sep then EmptyString :: split sep rest
      else match split sep rest with
           | [] => [String c EmptyString]
           | field :: fields => String c field :: fields
           end
  end.

(** Whether the code unit [c] occurs in [s]. *)
Fixpoint occurs (c : ascii) (s : string) : bool :=
  match s with
  | EmptyString => false
  | String d rest => Ascii.eqb d c || occurs c rest
  end.

Definition dot : ascii := "."%char.
Definition comma : ascii := ","%char.
Definition newline : string := String (ascii_of_nat 10) EmptyString.

(** The code unit that ends a line of the CSV text. *)
Definition line_feed : ascii := ascii_of_nat 10.

(** The decimal numeral of an array index. *)
Definition index_key (i : nat) : string :=
  NilZero.string_of_uint (Nat.to_uint i).

(** The decimal numeral of an integer. *)
Definition decimal (z : Z) : string :=
  NilZero.string_of_int (Z.to_int z).

(** ** Exceptions *)

Record Error : Type := mkError { message : string }.

Inductive outcome (A : Type) : Type :=
| Normal (a : A)
| Throw (e : Error).
Arguments Normal {A} a.
Arguments Throw {A} e.

Definition obind {A B : Type} (m : outcome A) (k : A -> outcome B) : outcome B :=
  match m with
  | Normal a => k a
  | Throw e => Throw e
  end.

Notation "'let!' x ':=' m 'in' k" := (obind m (fun x => k))
  (at level 10, x name, m at level 100, k at level 200).

(** [Array.prototype.map] with a callback that may throw. *)
Fixpoint map_throwing {A B : Type} (f : A -> outcome B) (xs : list A) : outcome (list B) :=
  match xs with
  | [] => Normal []
  | x :: rest =>
      let! y := f x in
      let! ys := map_throwing f rest in
      Normal (y :: ys)
  end.

(** [Array.prototype.reduce] with an initial value and a callback that may throw. *)
Fixpoint reduce {A B : Type} (f : B -> A -> outcome B) (xs : list A) (acc : B) : outcome B :=
  match xs with
  | [] => Normal acc
  | x :: rest => let! acc' := f acc x in reduce f rest acc'
  end.

(** ** The JavaScript engine

    What the handlers take from the engine and do not define themselves:
    the numbers and their printing, the members of the built-in prototype
    objects, and the text of the [TypeError]s the engine raises. *)

Inductive Prototype : Type :=
| Object_prototype | Array_prototype | String_prototype
| Number_prototype | Boolean_prototype.

Inductive fault : Type :=
| read_of_nullish (property : string)
| not_a_function (property : string)
| no_primitive_value.

Class Engine : Type := {
  number : Type;
  Number_of_Z : Z -> number;
  Number_toString : number -> string;
  (** values that are reached through a prototype: functions, the
      prototype objects themselves and what their members lead to *)
  builtin : Type;
  (** [prototype_member p k]: the member named [k] on the chain that
      starts at [p], [None] when there is none or it is nullish *)
  prototype_member : Prototype -> string -> outcome (option builtin);
  builtin_member : builtin -> string -> outcome (option builtin);
  builtin_toString : builtin -> outcome string;
  TypeError_message : fault -> string
}.

Definition TypeError `{Engine} {A : Type} (f : fault) : outcome A :=
  Throw (mkError (TypeError_message f)).

(** An engine for worked examples: the numbers are the integers, printed
    in decimal, and no prototype has a member. *)
Definition integer_engine : Engine := {|
  number := Z;
  Number_of_Z := fun z => z;
  Number_toString := decimal;
  builtin := Empty_set;
  prototype_member := fun _ _ => Normal None;
  builtin_member := fun _ _ => Normal None;
  builtin_toString := fun _ => Normal EmptyString;
  TypeError_message := fun f =>
    match f with
    | read_of_nullish p => "Cannot read properties of undefined (reading '" ++ p ++ "')"
    | not_a_function p => p ++ " is not a function"
    | no_primitive_value => "Cannot convert object to primitive value"
    end
|}.

(** ** Values of type [any] *)

Unset Elimination Schemes.
Inductive any `{Engine} : Type :=
| JUndefined
| JNull
| JBoolean (b : bool)
| JNumber (n : number)
| JString (s : string)
| JObject (props : list (string * any))
| JArray (elems : list any).
Set Elimination Schemes.

(** Induction over a value, its properties and its elements. *)
Section Induction.
Context `{E : Engine}.
Variable P : any -> Prop.
Hypothesis H_undefined : P JUndefined.
Hypothesis H_null : P JNull.
Hypothesis H_boolean : forall b, P (JBoolean b).
Hypothesis H_number : forall n, P (JNumber n).
Hypothesis H_string : forall s, P (JString s).
Hypothesis H_object : forall props, Forall (fun kv => P (snd kv)) props -> P (JObject props).
Hypothesis H_array : forall elems, Forall P elems -> P (JArray elems).

Fixpoint any_ind (v : any) : P v :=
  match v with
  | JUndefined => H_undefined
  | JNull => H_null
  | JBoolean b => H_boolean b
  | JNumber n => H_number n
  | JString s => H_string s
  | JObject props =>
      H_object props
        ((fix each (l : list (string * any)) : Forall (fun kv => P (snd kv)) l :=
            match l with
            | [] => Forall_nil _
            | kv :: rest => Forall_cons kv (any_ind (snd kv)) (each rest)
            end) props)
  | JArray elems =>
      H_array elems
        ((fix each (l : list any) : Forall P l :=
            match l with
            | [] => Forall_nil _
            | x :: rest => Forall_cons x (any_ind x) (each rest)
            end) elems)
  end.

End Induction.

Section Values.
Context `{E : Engine}.

Definition typeof (v : any) : string :=
  match v with
  | JUndefined => "undefined"
  | JNull | JObject _ | JArray _ => "object"
  | JBoolean _ => "boolean"
  | JNumber _ => "number"
  | JString _ => "string"
  end.

Definition nullish (v : any) : bool :=
  match v with
  | JUndefined | JNull => true
  | _ => false
  end.

(** The value of the first property named [key]. *)
Fixpoint assoc (key : string) (props : list (string * any)) : option any :=
  match props with
  | [] => None
  | (k, v) :: rest => if String.eqb k key then Some v else assoc key rest
  end.

(** The index below [len] whose numeral is [key]. *)
Definition index_of (key : string) (len : nat) : option nat :=
  find (fun i => String.eqb (index_key i) key) (seq 0 len).

(** The code units of a string, each as a string of length one. *)
Fixpoint units (s : string) : list any :=
  match s with
  | EmptyString => []
  | String c rest => JString (String c EmptyString) :: units rest
  end.

Definition length_value (n : nat) : any := JNumber (Number_of_Z (Z.of_nat n)).

(** The own property [key] of a value that is not nullish: a property of
    an object, an element or the length of an array or of a string. *)
Definition own_property (v : any) (key : string) : option any :=
  match v with
  | JObject props => assoc key props
  | JArray elems =>
      match index_of key (List.length elems) with
      | Some i => nth_error elems i
      | None => if String.eqb key "length" then Some (length_value (List.length elems)) else None
      end
  | JString s =>
      match index_of key (String.length s) with
      | Some i => nth_error (units s) i
      | None => if String.eqb key "length" then Some (length_value (String.length s)) else None
      end
  | _ => None
  end.

(** [v.name] for the names the handlers write out ([body], [orgs],
    [orgId], [connectorParams], ...). None of them is a member of a
    built-in prototype, so the read finds an own property or [undefined];
    on [null] and [undefined] it throws. *)
Definition member (v : any) (name : string) : outcome any :=
  if nullish v then TypeError (read_of_nullish name)
  else match own_property v name with
       | Some x => Normal x
       | None => Normal JUndefined
       end.

Definition prototype_of (v : any) : Prototype :=
  match v with
  | JArray _ => Array_prototype
  | JString _ => String_prototype
  | JNumber _ => Number_prototype
  | JBoolean _ => Boolean_prototype
  | _ => Object_prototype
  end.

(** What a chain of property reads has reached. *)
Inductive reached : Type :=
| Val (v : any)
| Builtin (h : builtin).

Definition of_member (m : option builtin) : reached :=
  match m with
  | Some h => Builtin h
  | None => Val JUndefined
  end.

(** [acc?.[part]] for a computed name: own properties first, then the
    prototype chain. *)
Definition optional_get (acc : reached) (part : string) : outcome reached :=
  match acc with
  | Val v =>
      if nullish v then Normal (Val JUndefined)
      else match own_property v part with
           | Some x => Normal (Val x)
           | None => let! m := prototype_member (prototype_of v) part in Normal (of_member m)
           end
  | Builtin h => let! m := builtin_member h part in Normal (of_member m)
  end.

(** The own enumerable properties, in the order of [for ... in]. *)
Fixpoint indexed (i : nat) (elems : list any) : list (string * any) :=
  match elems with
  | [] => []
  | x :: rest => (index_key i, x) :: indexed (S i) rest
  end.

Definition entries (v : any) : list (string * any) :=
  match v with
  | JObject props => props
  | JArray elems => indexed 0 elems
  | JString s => indexed 0 (units s)
  | _ => []
  end.

(** [ToString] of the language, as [Array.prototype.join] applies it to
    an element. An object from JSON has no callable own member: it prints
    through [Object.prototype.toString] unless an own property named
    [toString] hides that, and then neither [toString] nor [valueOf]
    gives a primitive value. An array prints as its elements joined by
    commas, [null] and [undefined] elements as the empty string. *)
Fixpoint ToString (v : any) : outcome string :=
  match v with
  | JUndefined => Normal "undefined"
  | JNull => Normal "null"
  | JBoolean b => Normal (if b then "true" else "false")
  | JNumber n => Normal (Number_toString n)
  | JString s => Normal s
  | JObject props =>
      match assoc "toString" props with
      | Some _ => TypeError no_primitive_value
      | None => Normal "[object Object]"
      end
  | JArray elems =>
      let! parts :=
        (fix each (xs : list any) : outcome (list string) :=
           match xs with
           | [] => Normal []
           | x :: rest =>
               let! s := (if nullish x then Normal EmptyString else ToString x) in
               let! ss := each rest in
               Normal (s :: ss)
           end) elems in
      Normal (String.concat "," parts)
  end.

(** [Array.prototype.join]. *)
Definition join_element (r : reached) : outcome string :=
  match r with
  | Val v => if nullish v then Normal EmptyString else ToString v
  | Builtin h => builtin_toString h
  end.

Definition join (sep : string) (xs : list reached) : outcome string :=
  let! parts := map_throwing join_element xs in
  Normal (String.concat sep parts).

End Values.

(** ** The world outside a handler *)

(** A [Date], by the two views the handlers take of it. *)
Record Date : Type := mkDate { getTime : Z; toISOString : string }.

Module types.
Section Interfaces.
Context `{E : Engine}.

Record LambdaResponse : Type := mkLambdaResponse { statusCode : Z; body : any }.

Record CloudflareData : Type := mkCloudflareData {
  orgId : string;
  connectorParams : any;
  radarData : any;
  timestamp : string
}.

End Interfaces.
End types.

Section Outside.
Context `{E : Engine}.

(** The text handed to S3: a JSON document, kept as the value that
    [JSON.stringify] serialises, or plain text. *)
Inductive Text : Type :=
| JSON_stringify (data : types.CloudflareData)
| plain (s : string).

Record PutObjectCommand : Type := mkPutObjectCommand {
  Bucket : string;
  Key : string;
  Body : Text;
  ContentType : string
}.

(** The body of an HTTP response, by what [JSON.parse] makes of it. *)
Inductive parsed : Type :=
| valid (v : any)
| invalid (parseError : Error).

(** One HTTPS request that comes to an end: the request emits [error],
    or a response arrives and emits [end]. A response that never ends
    would leave the promise of the request pending for ever; such a
    course is not among these, and what is proved of the fetch is proved
    of requests that end. *)
Inductive exchange : Type :=
| request_error (error : Error)
| response (res_statusCode : option Z) (data : parsed).

Record World : Type := mkWorld {
  (** the successive readings of the system clock *)
  clock : nat -> Date;
  clock_reads : nat;
  (** [process.env.BUCKET_NAME] *)
  env_BUCKET_NAME : option string;
  (** the error with which S3 rejects the n-th command, if it does *)
  s3_rejects : nat -> option Error;
  s3_commands : nat;
  (** the commands S3 has carried out, oldest first: a log of what was
      written, not the content of the bucket, where a later command
      replaces the object an earlier one stored under the same key *)
  s3_puts : list PutObjectCommand;
  (** the course of the n-th HTTPS request *)
  network : nat -> exchange;
  requests : nat
}.

Definition Lambda (A : Type) : Type := World -> outcome A * World.

Definition ret {A : Type} (a : A) : Lambda A := fun w => (Normal a, w).

Definition bind {A B : Type} (m : Lambda A) (k : A -> Lambda B) : Lambda B :=
  fun w => match m w with
           | (Normal a, w') => k a w'
           | (Throw e, w') => (Throw e, w')
           end.

Definition throw {A : Type} (e : Error) : Lambda A := fun w => (Throw e, w).

Definition lift {A : Type} (m : outcome A) : Lambda A := fun w => (m, w).

(** [try { m } catch (error) { h error }] *)
Definition try_catch {A : Type} (m : Lambda A) (h : Error -> Lambda A) : Lambda A :=
  fun w => match m w with
           | (Normal a, w') => (Normal a, w')
           | (Throw e, w') => h e w'
           end.

(** [new Date()] *)
Definition new_Date : Lambda Date :=
  fun w => (Normal (clock w (clock_reads w)),
            mkWorld (clock w) (S (clock_reads w)) (env_BUCKET_NAME w)
                    (s3_rejects w) (s3_commands w) (s3_puts w) (network w) (requests w)).

(** [await s3Client.send(command)] *)
Definition s3Client_send (command : PutObjectCommand) : Lambda unit :=
  fun w =>
    match s3_rejects w (s3_commands w) with
    | Some e =>
        (Throw e,
         mkWorld (clock w) (clock_reads w) (env_BUCKET_NAME w)
                 (s3_rejects w) (S (s3_commands w)) (s3_puts w) (network w) (requests w))
    | None =>
        (Normal tt,
         mkWorld (clock w) (clock_reads w) (env_BUCKET_NAME w)
                 (s3_rejects w) (S (s3_commands w)) (s3_puts w ++ [command])%list
                 (network w) (requests w))
    end.

(** [https.request(options, ...)] followed to the end of the exchange. *)
Definition https_request : Lambda exchange :=
  fun w => (Normal (network w (requests w)),
            mkWorld (clock w) (clock_reads w) (env_BUCKET_NAME w)
                    (s3_rejects w) (s3_commands w) (s3_puts w) (network w) (S (requests w))).

End Outside.

Notation "x <- m ;; k" := (bind m (fun x => k))
  (at level 61, m at next level, right associativity).

(** The failure body every handler builds in its [catch] block. What is
    thrown in these handlers is always an [Error], so the message of the
    body is the message of the error. *)
Definition failure `{Engine} (what : string) (error : Error) (at_ : Date) : types.LambdaResponse :=
  types.mkLambdaResponse 500
    (JObject [("error", JString what);
              ("message", JString (message error));
              ("timestamp", JString (toISOString at_))]).

(** ** prepareDataToFiles.ts *)

Module prepareDataToFiles.
Section Handler.
Context `{E : Engine}.
Import types.

(** [process.env.BUCKET_NAME || 'stepfunction-poc-bucket-12345'] *)
Definition BUCKET_NAME (w : World) : string :=
  match env_BUCKET_NAME w with
  | Some name => if String.eqb name "" then "stepfunction-poc-bucket-12345" else name
  | None => "stepfunction-poc-bucket-12345"
  end.

Definition the_BUCKET_NAME : Lambda string := fun w => (Normal (BUCKET_NAME w), w).

(** The body of an entry is the [CloudflareData] of a fetch, or the
    error body the fetch handler returns when it fails. *)
Inductive ResultBody : Type :=
| fetched (data : CloudflareData)
| fetch_failed (error message_ timestamp_ : string).

Record BatchResult : Type := mkBatchResult { statusCode : Z; body : ResultBody }.

Record BatchResults : Type := mkBatchResults { batchResults : list BatchResult }.

(** [allKeys.add(key)] on the insertion-ordered [Set]. *)
Definition Set_add (key : string) (allKeys : list string) : list string :=
  if existsb (String.eqb key) allKeys then allKeys else (allKeys ++ [key])%list.

(** [prefix ? `${prefix}.${key}` : key] *)
Definition column (prefix key : string) : string :=
  if String.eqb prefix "" then key else prefix ++ "." ++ key.

(** [typeof obj[key] === 'object' && obj[key] !== null] *)
Definition is_nested (v : any) : bool :=
  String.eqb (typeof v) "object" && negb (match v with JNull => true | _ => false end).

(** [flattenObject], with the [Set] it fills passed in and out. The loop
    runs over the own enumerable properties of [obj]; [obj[key]] is the
    value that stands with [key]. *)
Fixpoint flattenObject (obj : any) (prefix : string) (allKeys : list string)
  {struct obj} : list string :=
  match obj with
  | JObject props =>
      (fix loop (props : list (string * any)) (allKeys : list string) : list string :=
         match props with
         | [] => allKeys
         | (key, v) :: rest =>
             loop rest (if is_nested v
                        then flattenObject v (column prefix key) allKeys
                        else Set_add (column prefix key) allKeys)
         end) props allKeys
  | JArray elems =>
      (fix loop (i : nat) (elems : list any) (allKeys : list string) : list string :=
         match elems with
         | [] => allKeys
         | v :: rest =>
             loop (S i) rest (if is_nested v
                              then flattenObject v (column prefix (index_key i)) allKeys
                              else Set_add (column prefix (index_key i)) allKeys)
         end) 0 elems allKeys
  | JString s =>
      fold_left (fun allKeys kv => Set_add (column prefix (fst kv)) allKeys)
                (indexed 0 (units s)) allKeys
  | _ => allKeys
  end.

(** [path.split('.').reduce((acc, part) => acc?.[part], obj) ?? ''] *)
Definition getValue (obj : any) (path : string) : outcome reached :=
  let! r := reduce optional_get (split dot path) (Val obj) in
  Normal (match r with
          | Val v => if nullish v then Val (JString "") else r
          | Builtin _ => r
          end).

Definition convertToCSV (data : CloudflareData) : outcome string :=
  let allKeys := flattenObject (radarData data) "" [] in
  let headers := allKeys in
  let! row := map_throwing (fun header => getValue (radarData data) header) headers in
  let! line := join "," row in
  Normal (String.concat newline [String.concat "," headers; line]).

(** One turn of the loop over [results.entries()]. On an error body
    [data.connectorParams] is [undefined] and reading [exchange_id] from
    it throws. *)
Definition process (timestamp : string) (index : nat) (result : BatchResult)
  (processedCount : nat) : Lambda nat :=
  if negb (Z.eqb (statusCode result) 200) then
    throw (mkError ("Invalid status code " ++ decimal (statusCode result)
                    ++ " for record " ++ index_key (index + 1)))
  else
    match body result with
    | fetch_failed _ _ _ => lift (TypeError (read_of_nullish "exchange_id"))
    | fetched data =>
        _ <- lift (member (connectorParams data) "exchange_id") ;;
        _ <- lift (member (connectorParams data) "ticker_symbol") ;;
        let jsonKey := orgId data ++ "/" ++ timestamp ++ "/data.json" in
        bucket <- the_BUCKET_NAME ;;
        _ <- s3Client_send (mkPutObjectCommand bucket jsonKey (JSON_stringify data)
                                               "application/json") ;;
        let csvKey := orgId data ++ "/" ++ timestamp ++ "/data.csv" in
        csvData <- lift (convertToCSV data) ;;
        _ <- s3Client_send (mkPutObjectCommand bucket csvKey (plain csvData) "text/csv") ;;
        ret (processedCount + 1)
    end.

Fixpoint for_of (timestamp : string) (index : nat) (results : list BatchResult)
  (processedCount : nat) : Lambda nat :=
  match results with
  | [] => ret processedCount
  | result :: rest =>
      processedCount' <- process timestamp index result processedCount ;;
      for_of timestamp (S index) rest processedCount'
  end.

(** The handler on an event of its declared type. The read
    [event.batchResults.length] of the first log line, which comes before
    the [try], finds the array of such an event; on an event of another
    shape it would throw out of the handler. *)
Definition handler (event : BatchResults) : Lambda LambdaResponse :=
  startTime <- new_Date ;;
  try_catch
    (let timestamp := toISOString startTime in
     let results := batchResults event in
     processedCount <- for_of timestamp 0 results 0 ;;
     endTime <- new_Date ;;
     let processingTime := (getTime endTime - getTime startTime)%Z in
     bucket <- the_BUCKET_NAME ;;
     ret (mkLambdaResponse 200
            (JObject [("message", JString "Data processing completed");
                      ("bucketName", JString bucket);
                      ("processedCount", JNumber (Number_of_Z (Z.of_nat processedCount)));
                      ("processingTimeMs", JNumber (Number_of_Z processingTime));
                      ("startTime", JString (toISOString startTime));
                      ("endTime", JString (toISOString endTime))])))
    (fun error =>
       errorTime <- new_Date ;;
       ret (failure "Failed to process data" error errorTime)).

End Handler.
End prepareDataToFiles.

(** ** providerEndpoint.ts *)

Module providerEndpoint.
Section Handler.
Context `{E : Engine}.
Import types.

Definition org (orgId ticker_symbol ticker_symbols : string) : any :=
  JObject [("orgId", JString orgId);
           ("connectorParams",
            JObject [("exchange_id", JString "3");
                     ("ticker_symbol", JString ticker_symbol);
                     ("ticker_symbols", JString ticker_symbols);
                     ("key_development_list", JString "28,74,75,101,52,80,81,82,94,26,27")])].

Definition response : any :=
  JObject [("providerId", JString "provider-1");
           ("resourceType", JString "activity-center");
           ("providerName", JString "Provider 1");
           ("externalId", JString "schedule-activity-center-import-test");
           ("secrets", JString "****************************");
           ("connectorParams",
            JObject [("snowflake_schema", JString "XPRESSFEED");
                     ("snowflake_warehouse", JString "XF_READER_DILIGENTCORP_WH");
                     ("snowflake_account", JString "idb71831.us-east-1");
                     ("snowflake_database", JString "MI_XPRESSCLOUD");
                     ("key_development_list", JString "28,74,75,101,52,80,81,82,94,26,27")]);
           ("orgs",
            JArray [org "155" "AMZN" "MSFT-458, NFLX-458, GOOGL-458";
                    org "148" "MSFT" "AMZN-458, NFLX-458, GOOGL-458"])].

(** Nothing in the [try] block throws. *)
Definition handler (event : any) : Lambda LambdaResponse :=
  try_catch
    (ret (mkLambdaResponse 200 response))
    (fun error =>
       _ <- new_Date ;;
       now <- new_Date ;;
       ret (failure "Failed to fetch provider data" error now)).

End Handler.
End providerEndpoint.

(** ** decryptionHandler.ts *)

Module decryptionHandler.
Section Handler.
Context `{E : Engine}.
Import types.

(** Defining the property [key] on an object literal under construction:
    a property of that name keeps its place and takes the new value,
    otherwise the property is added last. *)
Fixpoint define_property (key : string) (v : any) (props : list (string * any))
  : list (string * any) :=
  match props with
  | [] => [(key, v)]
  | (k, old) :: rest =>
      if String.eqb k key then (k, v) :: rest
      else (k, old) :: define_property key v rest
  end.

Definition handler (event : any) : Lambda LambdaResponse :=
  try_catch
    (providerData <- lift (member event "body") ;;
     _ <- lift (member providerData "providerId") ;;
     _ <- lift (member providerData "providerName") ;;
     orgs <- lift (member providerData "orgs") ;;
     _ <- lift (member orgs "length") ;;
     (* { ...providerData, secrets: "decrypted-secret-data" } *)
     let decryptedData :=
       JObject (define_property "secrets" (JString "decrypted-secret-data")
                                (entries providerData)) in
     ret (mkLambdaResponse 200 decryptedData))
    (fun error =>
       _ <- new_Date ;;
       now <- new_Date ;;
       ret (failure "Failed to decrypt data" error now)).

End Handler.
End decryptionHandler.

(** ** extractOrgs.ts *)

Module extractOrgs.
Section Handler.
Context `{E : Engine}.
Import types.

(** [orgs.map(callback)]: only an array has a callable [map]. *)
Definition call_map (orgs : any) (callback : any -> outcome any) : outcome (list any) :=
  match orgs with
  | JArray elems => map_throwing callback elems
  | JUndefined | JNull => TypeError (read_of_nullish "map")
  | _ => TypeError (not_a_function "map")
  end.

(** The callback of [map]. Its log line prints [org.orgId] in a template
    literal, which applies [ToString] to it. *)
Definition extract (org : any) : outcome any :=
  let! logged := member org "orgId" in
  let! _ := ToString logged in
  let! id := member org "orgId" in
  let! connectorParams := member org "connectorParams" in
  Normal (JObject [("id", id); ("connectorParams", connectorParams)]).

Definition handler (event : any) : Lambda LambdaResponse :=
  try_catch
    (providerData <- lift (member event "body") ;;
     _ <- lift (member providerData "providerId") ;;
     _ <- lift (member providerData "providerName") ;;
     orgs <- lift (member providerData "orgs") ;;
     _ <- lift (member orgs "length") ;;
     orgIds <- lift (call_map orgs extract) ;;
     let response := JObject [("orgIds", JArray orgIds)] in
     ret (mkLambdaResponse 200 response))
    (fun error =>
       _ <- new_Date ;;
       now <- new_Date ;;
       ret (failure "Failed to extract organization data" error now)).

End Handler.
End extractOrgs.

(** ** cloudflareFetchHandler.ts *)

Module cloudflareFetchHandler.
Section Handler.
Context `{E : Engine}.
Import types.

Record CloudflareResponse : Type := mkCloudflareResponse { status : Z; data : any }.

(** [res.statusCode || 500] *)
Definition status_or_500 (res_statusCode : option Z) : Z :=
  match res_statusCode with
  | Some code => if Z.eqb code 0 then 500 else code
  | None => 500
  end.

(** The promise of [makeCloudflareRequest], awaited: it resolves when the
    response ends and its text parses, whatever the status, and rejects
    when the text does not parse or the request emits [error]. *)
Definition makeCloudflareRequest (path : string) : Lambda CloudflareResponse :=
  x <- https_request ;;
  match x with
  | response res_statusCode (valid parsedData) =>
      ret (mkCloudflareResponse (status_or_500 res_statusCode) parsedData)
  | response _ (invalid parseError) =>
      throw (mkError ("Failed to parse response: " ++ message parseError))
  | request_error error =>
      throw (mkError ("Request failed: " ++ message error))
  end.

(** [JSON.stringify(v).length]: [JSON.stringify(undefined)] is [undefined],
    which has no [length] to read. *)
Definition stringify_length (v : any) : outcome unit :=
  match v with
  | JUndefined => TypeError (read_of_nullish "length")
  | _ => Normal tt
  end.

Definition handler (event : any) : Lambda LambdaResponse :=
  try_catch
    ((* const { id, connectorParams } = event *)
     id <- lift (member event "id") ;;
     connectorParams <- lift (member event "connectorParams") ;;
     _ <- lift (member connectorParams "exchange_id") ;;
     _ <- lift (member connectorParams "ticker_symbol") ;;
     radarResponse <- makeCloudflareRequest
       "/client/v4/radar/attacks/layer3/top/locations/target?dateRange=30d&format=json" ;;
     _ <- lift (stringify_length (data radarResponse)) ;;
     now <- new_Date ;;
     let cloudflareData :=
       JObject [("orgId", id);
                ("connectorParams", connectorParams);
                ("radarData", data radarResponse);
                ("timestamp", JString (toISOString now))] in
     ret (mkLambdaResponse 200 cloudflareData))
    (fun error =>
       _ <- new_Date ;;
       now <- new_Date ;;
       ret (failure "Failed to fetch Cloudflare data" error now)).

End Handler.
End cloudflareFetchHandler.

(** ** The flattened table, as the specification words it *)

Section Table.
Context `{E : Engine}.
Import types prepareDataToFiles.

(** Every leaf (a value that is not an object) of a value without
    arrays, with the field names that lead to it from the root, in the
    order of the walk. The specification leaves the columns of an array
    open; an array has no leaves here. *)
Fixpoint leaves (v : any) : list (list string * any) :=
  match v with
  | JObject props =>
      (fix walk (props : list (string * any)) : list (list string * any) :=
         match props with
         | [] => []
         | (key, x) :: rest =>
             ((if is_nested x
               then map (fun leaf => (key :: fst leaf, snd leaf)) (leaves x)
               else [([key], x)]) ++ walk rest)%list
         end) props
  | _ => []
  end.

(** The text of a leaf in the data row: a missing or null value is the
    empty string. *)
Definition cell_text (v : any) : string :=
  match v with
  | JBoolean b => if b then "true" else "false"
  | JNumber n => Number_toString n
  | JString s => s
  | _ => ""
  end.

(** The dot-joined path of a leaf. *)
Definition dotted (names : list string) : string := String.concat "." names.

Fixpoint distinct (names : list string) : bool :=
  match names with
  | [] => true
  | name :: rest => negb (existsb (String.eqb name) rest) && distinct rest
  end.

(** An array-free value whose objects have distinct field names without
    dot or comma and whose leaves print without comma. *)
Fixpoint simple (v : any) : bool :=
  match v with
  | JObject props =>
      distinct (map fst props) &&
      (fix all (props : list (string * any)) : bool :=
         match props with
         | [] => true
         | (key, x) :: rest =>
             negb (occurs dot key) && negb (occurs comma key) && simple x && all rest
         end) props
  | JArray _ => false
  | leaf => negb (occurs comma (cell_text leaf))
  end.

(** No own field name is empty. *)
Definition own_names_not_empty (v : any) : bool :=
  forallb (fun kv => negb (String.eqb (fst kv) "")) (entries v).

(** A value none of whose field names and none of whose leaves, as they
    are printed, holds a line feed. *)
Fixpoint one_line (v : any) : bool :=
  match v with
  | JObject props =>
      (fix all (props : list (string * any)) : bool :=
         match props with
         | [] => true
         | (key, x) :: rest => negb (occurs line_feed key) && one_line x && all rest
         end) props
  | JArray elems =>
      (fix all (elems : list any) : bool :=
         match elems with
         | [] => true
         | x :: rest => one_line x && all rest
         end) elems
  | leaf => negb (occurs line_feed (cell_text leaf))
  end.

(** A payload the table is faithful for: a simple object whose own field
    names are not empty, without a line feed in a name or in a value. *)
Definition tabular (payload : any) : bool :=
  match payload with
  | JObject _ => simple payload && own_names_not_empty payload && one_line payload
  | _ => false
  end.

(** Names for the steps of the walk. *)

(** What one property adds to the columns. *)
Definition visit (prefix : string) (allKeys : list string) (kv : string * any) : list string :=
  if is_nested (snd kv)
  then flattenObject (snd kv) (column prefix (fst kv)) allKeys
  else Set_add (column prefix (fst kv)) allKeys.

(** Adding columns one after the other. *)
Definition add_all (keys allKeys : list string) : list string :=
  fold_left (fun acc key => Set_add key acc) keys allKeys.

(** The leaves below one property. *)
Definition below (kv : string * any) : list (list string * any) :=
  if is_nested (snd kv)
  then map (fun leaf => (fst kv :: fst leaf, snd leaf)) (leaves (snd kv))
  else [([fst kv], snd kv)].

End Table.

(** ** The interfaces of types.ts, as shapes of values *)

Section Shapes.
Context `{E : Engine}.

Definition has_string (props : list (string * any)) (name : string) : bool :=
  match assoc name props with
  | Some (JString _) => true
  | _ => false
  end.

(** An element of [ProviderResponse.orgs]. *)
Definition is_org (v : any) : bool :=
  match v with
  | JObject props =>
      has_string props "orgId" &&
      match assoc "connectorParams" props with
      | Some (JObject params) =>
          has_string params "exchange_id" && has_string params "ticker_symbol" &&
          has_string params "ticker_symbols" && has_string params "key_development_list"
      | _ => false
      end
  | _ => false
  end.

(** [ProviderResponse] *)
Definition is_ProviderResponse (v : any) : bool :=
  match v with
  | JObject props =>
      has_string props "providerId" && has_string props "resourceType" &&
      has_string props "providerName" && has_string props "externalId" &&
      has_string props "secrets" &&
      match assoc "connectorParams" props with Some _ => true | None => false end &&
      match assoc "orgs" props with
      | Some (JArray orgs) => forallb is_org orgs
      | _ => false
      end
  | _ => false
  end.

(** [event.body.orgs], as far as it can be read. *)
Definition orgs_of (event : any) : outcome any :=
  let! providerData := member event "body" in
  member providerData "orgs".

End Shapes.

(** ** What the bucket is expected to receive *)

Section Objects.
Context `{E : Engine}.
Import types prepareDataToFiles.

Definition json_object (bucket timestamp : string) (data : CloudflareData) : PutObjectCommand :=
  mkPutObjectCommand bucket (orgId data ++ "/" ++ timestamp ++ "/data.json")
                     (JSON_stringify data) "application/json".

Definition csv_object (bucket timestamp : string) (data : CloudflareData) (csv : string)
  : PutObjectCommand :=
  mkPutObjectCommand bucket (orgId data ++ "/" ++ timestamp ++ "/data.csv")
                     (plain csv) "text/csv".

(** The objects of one entry: the JSON document, then the CSV text when
    the conversion yields one. *)
Definition objects_of (bucket timestamp : string) (result : BatchResult)
  : list PutObjectCommand :=
  match body result with
  | fetched data =>
      json_object bucket timestamp data ::
      match convertToCSV data with
      | Normal csv => [csv_object bucket timestamp data csv]
      | Throw _ => []
      end
  | fetch_failed _ _ _ => []
  end.

(** The start of the invocation that begins in [w]. *)
Definition start_of (w : World) : string := toISOString (clock w (clock_reads w)).

(** The world in which the loop of that invocation starts. *)
Definition started (w : World) : World :=
  mkWorld (clock w) (S (clock_reads w)) (env_BUCKET_NAME w)
          (s3_rejects w) (s3_commands w) (s3_puts w) (network w) (requests w).

Definition batch_objects (bucket timestamp : string) (results : list BatchResult)
  : list PutObjectCommand :=
  flat_map (objects_of bucket timestamp) results.

(** An entry the loop gets through when S3 accepts its objects: its
    status is 200, its [connectorParams] can be read and its payload
    converts. *)
Definition writable (result : BatchResult) : bool :=
  Z.eqb (statusCode result) 200 &&
  match body result with
  | fetched data =>
      negb (nullish (connectorParams data)) &&
      match convertToCSV data with Normal _ => true | Throw _ => false end
  | fetch_failed _ _ _ => false
  end.

(** What a turn of the loop leaves as it was: the clock and the name of
    the bucket. *)
Definition same_setting (w w' : World) : Prop :=
  clock w' = clock w /\ clock_reads w' = clock_reads w /\ BUCKET_NAME w' = BUCKET_NAME w.

End Objects.

(** ** Worked inputs *)

Module Examples.
Import types prepareDataToFiles.
#[local] Existing Instance integer_engine.

(** A clock that moves on by a millisecond at every reading; the ISO
    strings are right for the first ten readings. *)
Definition ticking (n : nat) : Date :=
  mkDate (Z.of_nat n + 1711000000000) ("2024-03-21T05:46:40.00" ++ index_key n ++ "Z").

(** A world in which S3 accepts every command and the Cloudflare API
    answers 403 with a JSON error body. *)
Definition forbidden : any :=
  JObject [("success", JBoolean false);
           ("errors", JArray [JObject [("code", JNumber 10000%Z);
                                       ("message", JString "Authentication error")]])].

Definition world : World :=
  mkWorld ticking 0 None (fun _ => None) 0 [] (fun _ => response (Some 403%Z) (valid forbidden)) 0.

Definition params : any :=
  JObject [("exchange_id", JString "3"); ("ticker_symbol", JString "AMZN")].

Definition fetch (orgId : string) (radarData : any) : CloudflareData :=
  mkCloudflareData orgId params radarData "2024-03-20T10:30:00.000Z".

(** The payload of the specification's example. *)
Definition nested : any :=
  JObject [("a", JObject [("b", JNumber 1%Z); ("c", JNumber 2%Z)]); ("d", JNumber 3%Z)].

Definition comma_in_value : any := JObject [("a", JString "x,y")].
Definition dot_in_name : any := JObject [("a.b", JNumber 1%Z)].
Definition empty_name : any := JObject [("", JObject [("a", JNumber 1%Z)])].
Definition line_feed_in_name : any :=
  JObject [("a" ++ newline ++ "b", JNumber 1%Z); ("c", JNumber 2%Z)].

(** A batch whose second entry is the failure of a fetch. *)
Definition mixed_batch : BatchResults :=
  mkBatchResults
    [mkBatchResult 200 (fetched (fetch "155" nested));
     mkBatchResult 500 (fetch_failed "Failed to fetch Cloudflare data"
                                     "Request failed: ECONNRESET"
                                     "2024-03-20T10:30:01.000Z")].

Definition single_batch : BatchResults :=
  mkBatchResults [mkBatchResult 200 (fetched (fetch "155" nested))].

(** The event the state machine hands to a stage: the response of the
    stage before. *)
Definition from_provider : any :=
  JObject [("statusCode", JNumber 200%Z); ("body", providerEndpoint.response)].

(** The same event with another secret. *)
Definition from_provider_again : any :=
  JObject [("statusCode", JNumber 200%Z);
           ("body", JObject (decryptionHandler.define_property "secrets"
                               (JString "another secret")
                               (entries providerEndpoint.response)))].

Definition without_orgs : any :=
  JObject [("statusCode", JNumber 200%Z);
           ("body", JObject [("providerId", JString "provider-1");
                             ("providerName", JString "Provider 1")])].

Definition extracted_org : any := JObject [("id", JString "155"); ("connectorParams", params)].

End Examples.

(** ** From one state of the machine to the next *)

Section Wiring.
Context `{E : Engine}.
Import types.

(** A [Task] state hands the answer of its function to the next state as
    it is: the event of the next function is the object with the
    [statusCode] and the [body] of that answer. *)
Definition as_event (answer : LambdaResponse) : any :=
  JObject [("statusCode", JNumber (Number_of_Z (statusCode answer)));
           ("body", body answer)].

End Wiring.

(** ** What a handler answers *)

Section Answers.
Context `{E : Engine}.
Import types.

(** A computation that, when it ends normally, answers 200. *)
Definition answers_200 (m : Lambda LambdaResponse) : Prop :=
  forall w answer w', m w = (Normal answer, w') -> statusCode answer = 200%Z.

(** A computation that always ends normally, with 200 or 500. *)
Definition always_answers (m : Lambda LambdaResponse) : Prop :=
  forall w, exists answer w',
    m w = (Normal answer, w') /\ (statusCode answer = 200%Z \/ statusCode answer = 500%Z).

End Answers.

(** ** What the stages need of an event *)

Section Needs.
Context `{E : Engine}.

(** [event.body.orgs] can be read and is neither [null] nor [undefined]:
    all that the decryption reads of it is its [length]. *)
Definition orgs_readable (event : any) : bool :=
  match orgs_of event with
  | Normal orgs => negb (nullish orgs)
  | Throw _ => false
  end.

(** The value of [v.name] where [v] is not nullish. *)
Definition property (v : any) (name : string) : any :=
  match own_property v name with
  | Some x => x
  | None => JUndefined
  end.

(** A value that [ToString] turns into a string: anything but an object
    with an own property named [toString], or an array that holds one. *)
Definition prints (v : any) : bool :=
  match ToString v with
  | Normal _ => true
  | Throw _ => false
  end.

(** An element the callback of the extraction gets through: it is
    neither [null] nor [undefined], and its [orgId] prints. *)
Definition mappable (org : any) : bool :=
  negb (nullish org) && prints (property org "orgId").

(** [event.body.orgs] is an array of mappable elements: what the
    extraction maps over. *)
Definition extractable (event : any) : bool :=
  match orgs_of event with
  | Normal (JArray elems) => forallb mappable elems
  | _ => false
  end.

(** What the extraction makes of one organisation. *)
Definition extracted (org : any) : any :=
  JObject [("id", property org "orgId");
           ("connectorParams", property org "connectorParams")].

(** [event.connectorParams] can be read and is neither [null] nor
    [undefined]: what the fetch needs before it sends its request. *)
Definition fetchable (event : any) : bool :=
  match member event "connectorParams" with
  | Normal connectorParams => negb (nullish connectorParams)
  | Throw _ => false
  end.

End Needs.

(** ** The table of a payload with arrays *)

Section TableWithArrays.
Context `{E : Engine}.
Import types prepareDataToFiles.

(** Every leaf of a value with the names that lead to it from the root,
    in the order of the walk; the name of an element of an array is the
    numeral of its index. *)
Fixpoint cells (v : any) : list (list string * any) :=
  match v with
  | JObject props =>
      (fix walk (props : list (string * any)) : list (list string * any) :=
         match props with
         | [] => []
         | (key, x) :: rest =>
             ((if is_nested x
               then map (fun cell => (key :: fst cell, snd cell)) (cells x)
               else [([key], x)]) ++ walk rest)%list
         end) props
  | JArray elems =>
      (fix walk (i : nat) (elems : list any) : list (list string * any) :=
         match elems with
         | [] => []
         | x :: rest =>
             ((if is_nested x
               then map (fun cell => (index_key i :: fst cell, snd cell)) (cells x)
               else [([index_key i], x)]) ++ walk (S i) rest)%list
         end) 0 elems
  | _ => []
  end.

(** The cells below one property or element. *)
Definition under (kv : string * any) : list (list string * any) :=
  if is_nested (snd kv)
  then map (fun cell => (fst kv :: fst cell, snd cell)) (cells (snd kv))
  else [([fst kv], snd kv)].

(** A value whose objects have distinct field names without dot or comma
    and whose leaves print without comma; arrays are allowed. *)
Fixpoint regular (v : any) : bool :=
  match v with
  | JObject props =>
      distinct (map fst props) &&
      (fix all (props : list (string * any)) : bool :=
         match props with
         | [] => true
         | (key, x) :: rest =>
             negb (occurs dot key) && negb (occurs comma key) && regular x && all rest
         end) props
  | JArray elems =>
      (fix all (elems : list any) : bool :=
         match elems with
         | [] => true
         | x :: rest => regular x && all rest
         end) elems
  | leaf => negb (occurs comma (cell_text leaf))
  end.

(** A payload the table with arrays is faithful for: a regular object or
    array whose own field names are not empty, without a line feed in a
    name or in a value. *)
Definition flattenable (payload : any) : bool :=
  is_nested payload && regular payload && own_names_not_empty payload && one_line payload.

End TableWithArrays.

(** ** createStateMachine.ts: the helpers that try again *)

Module createStateMachine.

(** What a call of the SDK rejects with: an [Error] object with a [name]. *)
Record ServiceError : Type := mkServiceError { name : string; cause : Error }.

(** The delay given to [setTimeout], as the expression that computes it:
    a constant, or [baseDelay * Math.pow(2, exponent)], or
    [baseDelay * Math.pow(1.5, exponent)]. *)
Inductive growth : Type := twofold | one_and_a_half.

Inductive delay : Type :=
| fixed (ms : Z)
| backoff (baseDelay : Z) (factor : growth) (exponent : nat).

Section Calls.
Variable T : Type.

Inductive settled : Type :=
| resolved (value : T)
| rejected (error : ServiceError).

(** The operation that is tried, by what its successive calls settle to,
    with the number of calls made and the delays waited for so far. *)
Record Calls : Type := mkCalls {
  operation : nat -> settled;
  made : nat;
  waited : list delay
}.

Definition called (c : Calls) : Calls := mkCalls (operation c) (S (made c)) (waited c).

Definition paused (d : delay) (c : Calls) : Calls :=
  mkCalls (operation c) (made c) (waited c ++ [d])%list.

(** How [retryWithBackoff] ends: with the value of the operation, or
    throwing an error, or throwing [lastError] while it is [undefined]. *)
Inductive ended : Type :=
| returned (value : T)
| threw (error : option ServiceError).

(** The loop [for (let attempt = 1; attempt <= maxAttempts; attempt++)]
    from [attempt] on, with [remaining] turns to go, and [throw lastError]
    after it. *)
Fixpoint attempts (maxAttempts : nat) (baseDelay : Z) (remaining attempt : nat)
  (lastError : option ServiceError) (c : Calls) : ended * Calls :=
  match remaining with
  | 0 => (threw lastError, c)
  | S remaining' =>
      match operation c (made c) with
      | resolved value => (returned value, called c)
      | rejected error =>
          if String.eqb (name error) "ResourceConflictException" then
            attempts maxAttempts baseDelay remaining' (S attempt) (Some error)
                     (paused (backoff baseDelay twofold (attempt - 1)) (called c))
          else if Nat.ltb attempt maxAttempts then
            attempts maxAttempts baseDelay remaining' (S attempt) (Some error)
                     (paused (backoff baseDelay one_and_a_half (attempt - 1)) (called c))
          else (threw (Some error), called c)
      end
  end.

Definition retryWithBackoff (maxAttempts : nat) (baseDelay : Z) (c : Calls) : ended * Calls :=
  attempts maxAttempts baseDelay maxAttempts 1 None c.

End Calls.

Arguments resolved {T} value.
Arguments rejected {T} error.
Arguments mkCalls {T} operation made waited.
Arguments operation {T} c n.
Arguments made {T} c.
Arguments waited {T} c.
Arguments called {T} c.
Arguments paused {T} d c.
Arguments returned {T} value.
Arguments threw {T} error.
Arguments attempts {T} maxAttempts baseDelay remaining attempt lastError c.
Arguments retryWithBackoff {T} maxAttempts baseDelay c.

(** [response.Configuration?.State === 'Active'] *)
Definition is_Active (state : option string) : bool :=
  match state with
  | Some s => String.eqb s "Active"
  | None => false
  end.

(** [waitForLambdaFunction], the calls being those of [GetFunction] and
    their values the [State] of the function. *)
Fixpoint polls (remaining : nat) (c : Calls (option string)) : bool * Calls (option string) :=
  match remaining with
  | 0 => (false, c)
  | S remaining' =>
      match operation c (made c) with
      | resolved state =>
          if is_Active state then (true, called c)
          else polls remaining' (paused (fixed 5000) (called c))
      | rejected error => (false, called c)
      end
  end.

Definition waitForLambdaFunction (maxAttempts : nat) (c : Calls (option string))
  : bool * Calls (option string) :=
  polls maxAttempts c.

End createStateMachine.

(** ** More example inputs *)

Module Cases.
Import types prepareDataToFiles Examples.
#[local] Existing Instance integer_engine.



(** A payload with an array. *)
Definition with_array : any :=
  JObject [("a", JArray [JNumber 1%Z; JObject [("z", JNull)]]); ("d", JString "x")].

(** A batch of two writable entries. *)
Definition two_entries : BatchResults :=
  mkBatchResults
    [mkBatchResult 200 (fetched (fetch "155" nested));
     mkBatchResult 200 (fetched (fetch "148" with_array))].

(** A world in which S3 rejects the fourth command. *)
Definition denied : Error := mkError "Access Denied".

Definition fourth_denied : World :=
  mkWorld ticking 0 None (fun n => if Nat.eqb n 3 then Some denied else None) 0 []
          (fun _ => response (Some 200%Z) (valid nested)) 0.

(** An event whose organisation has an [orgId] that does not print. *)
Definition hidden_toString : any :=
  JObject [("body",
            JObject [("orgs",
                      JArray [JObject [("orgId",
                                        JObject [("toString", JNumber 1%Z)])]])])].

(** A world in which the request emits an error. *)
Definition reset : Error := mkError "read ECONNRESET".

Definition offline : World :=
  mkWorld ticking 0 None (fun _ => None) 0 [] (fun _ => request_error reset) 0.

(** An event whose body has no [secrets]. *)
Definition without_secrets : any :=
  JObject [("statusCode", JNumber 200%Z);
           ("body", JObject [("providerId", JString "provider-1");
                             ("orgs", JArray [providerEndpoint.org "155" "AMZN" "MSFT-458"])])].

(** An event whose [orgs] are not organisations. *)
Definition odd_orgs : any :=
  JObject [("body", JObject [("orgs", JArray [JNumber 7%Z;
                                              JObject [("orgId", JString "155")]])])].

(** An operation that is rejected twice with a conflict and then
    resolves. *)
Definition conflict : createStateMachine.ServiceError :=
  createStateMachine.mkServiceError "ResourceConflictException"
    (mkError "The operation cannot be performed at this time.").

Definition twice_in_conflict : createStateMachine.Calls string :=
  createStateMachine.mkCalls
    (fun n => if Nat.ltb n 2 then createStateMachine.rejected conflict
              else createStateMachine.resolved "arn:aws:lambda:us-east-1:000000000000:function:f")
    0 [].

(** An operation that is always rejected, not with a conflict. *)
Definition forbidden_call : createStateMachine.ServiceError :=
  createStateMachine.mkServiceError "AccessDeniedException" (mkError "not authorized").

Definition always_rejected : createStateMachine.Calls string :=
  createStateMachine.mkCalls (fun _ => createStateMachine.rejected forbidden_call) 0 [].

Definition always_in_conflict : createStateMachine.Calls string :=
  createStateMachine.mkCalls (fun _ => createStateMachine.rejected conflict) 0 [].

(** A function that is [Pending] at two calls of [GetFunction] and
    [Active] from the third. *)
Definition pending_twice : createStateMachine.Calls (option string) :=
  createStateMachine.mkCalls
    (fun n => createStateMachine.resolved
                (Some (if Nat.ltb n 2 then "Pending" else "Active")))
    0 [].

End Cases.

(** * Properties *)

(** ** Splitting and joining *)

Lemma occurs_append (c : ascii) (a b : string) :
  occurs c (a ++ b) = occurs c a || occurs c b.
Proof.
  induction a as [|d a IH]; simpl.
  - reflexivity.
  - rewrite IH. now rewrite orb_assoc.
Qed.

Lemma split_free (sep : ascii) (s : string) :
  occurs sep s = false -> split sep s = [s].
Proof.
  induction s as [|c s IH]; simpl; intros Hfree.
  - reflexivity.
  - apply orb_false_elim in Hfree as [Hc Hs].
    rewrite Hc, (IH Hs). reflexivity.
Qed.

Lemma split_field (sep : ascii) (s rest : string) :
  occurs sep s = false ->
  split sep (s ++ String sep rest) = s :: split sep rest.
Proof.
  induction s as [|c s IH]; simpl; intros Hfree.
  - now rewrite Ascii.eqb_refl.
  - apply orb_false_elim in Hfree as [Hc Hs].
    rewrite Hc, (IH Hs). reflexivity.
Qed.

(** Joining fields that do not hold the separator and splitting the line
    again gives the fields back. *)
Lemma split_concat (sep : ascii) (fields : list string) :
  fields <> [] ->
  Forall (fun field => occurs sep field = false) fields ->
  split sep (String.concat (String sep EmptyString) fields) = fields.
Proof.
  induction fields as [|field rest IH]; intros Hne Hfree.
  - contradiction.
  - inversion Hfree as [|? ? Hfield Hrest]; subst.
    destruct rest as [|next rest].
    + simpl. now apply split_free.
    + change (String.concat (String sep EmptyString) (field :: next :: rest))
        with (field ++ String sep (String.concat (String sep EmptyString) (next :: rest))).
      rewrite split_field by assumption.
      rewrite IH; [reflexivity|discriminate|assumption].
Qed.

Lemma occurs_concat (c sep : ascii) (fields : list string) :
  Ascii.eqb sep c = false ->
  Forall (fun field => occurs c field = false) fields ->
  occurs c (String.concat (String sep EmptyString) fields) = false.
Proof.
  intros Hsep. induction fields as [|field rest IH]; intros Hfree.
  - reflexivity.
  - inversion Hfree as [|? ? Hfield Hrest]; subst.
    destruct rest as [|next rest].
    + assumption.
    + change (String.concat (String sep EmptyString) (field :: next :: rest))
        with (field ++ String sep (String.concat (String sep EmptyString) (next :: rest))).
      rewrite occurs_append, Hfield. simpl. rewrite Hsep. now apply IH.
Qed.


(** ** Reading a property *)

Section Reading.
Context `{E : Engine}.

Lemma member_defined (v : any) (name : string) :
  nullish v = false -> exists x, member v name = Normal x.
Proof.
  intros Hv. unfold member. rewrite Hv.
  destruct (own_property v name) as [x|]; eauto.
Qed.

Lemma member_nullish (v : any) (name : string) :
  nullish v = true -> member v name = TypeError (read_of_nullish name).
Proof. intros Hv. unfold member. now rewrite Hv. Qed.

Lemma member_object (props : list (string * any)) (name : string) :
  member (JObject props) name
  = Normal (match assoc name props with Some x => x | None => JUndefined end).
Proof. unfold member. simpl. now destruct (assoc name props). Qed.

End Reading.

(** ** The walk of [flattenObject] *)

Section Walk.
Context `{E : Engine}.
Import types prepareDataToFiles.

Lemma flattenObject_object (props : list (string * any)) (prefix : string) (allKeys : list string) :
  flattenObject (JObject props) prefix allKeys = fold_left (visit prefix) props allKeys.
Proof.
  revert allKeys. induction props as [|[key v] rest IH]; intros allKeys.
  - reflexivity.
  - simpl fold_left. rewrite <- IH. reflexivity.
Qed.

Lemma leaves_object (props : list (string * any)) :
  leaves (JObject props) = flat_map below props.
Proof.
  induction props as [|[key v] rest IH].
  - reflexivity.
  - simpl flat_map. rewrite <- IH. reflexivity.
Qed.

Lemma simple_object (props : list (string * any)) :
  simple (JObject props) = true ->
  distinct (map fst props) = true /\
  Forall (fun kv => occurs dot (fst kv) = false /\ occurs comma (fst kv) = false /\
                    simple (snd kv) = true) props.
Proof.
  simpl. intros H. apply andb_prop in H as [Hd Hall]. split; [assumption|].
  clear Hd. induction props as [|[key v] rest IH].
  - constructor.
  - apply andb_prop in Hall as [Hall Hrest].
    apply andb_prop in Hall as [Hall Hv].
    apply andb_prop in Hall as [Hdot Hcomma].
    constructor; [|now apply IH].
    simpl. apply negb_true_iff in Hdot. apply negb_true_iff in Hcomma. auto.
Qed.

Lemma add_all_app (keys more allKeys : list string) :
  add_all (keys ++ more) allKeys = add_all more (add_all keys allKeys).
Proof. apply fold_left_app. Qed.

Lemma append_assoc (a b c : string) : (a ++ b) ++ c = a ++ b ++ c.
Proof. induction a as [|x a IH]; simpl; [reflexivity|now rewrite IH]. Qed.

Lemma concat_snoc (sep : string) (names : list string) (name : string) :
  names <> [] ->
  String.concat sep (names ++ [name]) = String.concat sep names ++ sep ++ name.
Proof.
  induction names as [|n rest IH]; intros Hne.
  - contradiction.
  - destruct rest as [|m rest].
    + reflexivity.
    + change (String.concat sep ((n :: m :: rest) ++ [name]))
        with (n ++ sep ++ String.concat sep ((m :: rest) ++ [name])).
      rewrite IH by discriminate.
      change (String.concat sep (n :: m :: rest))
        with (n ++ sep ++ String.concat sep (m :: rest)).
      now rewrite !append_assoc.
Qed.

Lemma append_not_empty (a b : string) : b <> "" -> a ++ b <> "".
Proof. destruct a; simpl; [auto|discriminate]. Qed.

(** The column of a property is the dotted path of its names, unless the
    names so far are the single empty name. *)
Lemma column_dotted (names : list string) (key : string) :
  (names = [] \/ dotted names <> "") ->
  column (dotted names) key = dotted (names ++ [key]).
Proof.
  unfold column, dotted. intros [->|Hne].
  - reflexivity.
  - destruct (String.eqb_spec (String.concat "." names) "") as [Heq|_]; [contradiction|].
    rewrite concat_snoc; [reflexivity|].
    intros ->. now apply Hne.
Qed.

Lemma dotted_snoc_not_empty (names : list string) (key : string) :
  names <> [] -> dotted (names ++ [key]) <> "".
Proof.
  intros Hne. unfold dotted. rewrite concat_snoc by assumption.
  apply append_not_empty. discriminate.
Qed.

(** On an array-free object the walk adds the dotted paths of the leaves,
    in order. *)
Lemma flattenObject_leaves (v : any) :
  forall (names : list string) (allKeys : list string),
    simple v = true ->
    is_nested v = true ->
    (names = [] -> own_names_not_empty v = true) ->
    (names <> [] -> dotted names <> "") ->
    flattenObject v (dotted names) allKeys
    = add_all (map (fun leaf => dotted (names ++ fst leaf)) (leaves v)) allKeys.
Proof.
  induction v as [| | | | |props IH|elems _] using any_ind;
    intros names allKeys Hsimple Hnested Htop Hdeep; try discriminate.
  rewrite flattenObject_object, leaves_object.
  apply simple_object in Hsimple as [_ Hall].
  assert (Hnames : names = [] ->
            Forall (fun kv => fst kv <> "") props).
  { intros Hnil. specialize (Htop Hnil). unfold own_names_not_empty in Htop. simpl in Htop.
    rewrite forallb_forall in Htop. apply Forall_forall. intros kv Hin.
    specialize (Htop kv Hin). apply negb_true_iff in Htop.
    now apply String.eqb_neq. }
  clear Htop Hnested. revert allKeys.
  induction props as [|[key v] rest IHrest]; intros allKeys.
  - reflexivity.
  - inversion IH as [|? ? IHv IHothers]; subst.
    inversion Hall as [|? ? [Hdot [Hcomma Hv]] Hothers]; subst.
    simpl in IHv, Hdot, Hcomma, Hv.
    simpl fold_left. simpl flat_map. rewrite map_app, add_all_app.
    rewrite IHrest; try assumption.
    2:{ intros Hnil. specialize (Hnames Hnil). now inversion Hnames. }
    f_equal. unfold visit, below. simpl fst. simpl snd.
    assert (Hcol : column (dotted names) key = dotted (names ++ [key])).
    { apply column_dotted. destruct names; [now left|right]. now apply Hdeep. }
    rewrite Hcol.
    destruct (is_nested v) eqn:Hn.
    + rewrite IHv; [|assumption|reflexivity| |].
      * rewrite map_map. simpl. f_equal. apply map_ext. intros leaf.
        now rewrite <- app_assoc.
      * intros Habs. now destruct names.
      * intros _. destruct names as [|n names].
        -- simpl. unfold dotted. simpl. specialize (Hnames eq_refl).
           inversion Hnames; subst. assumption.
        -- now apply dotted_snoc_not_empty.
    + reflexivity.
Qed.

End Walk.

Section Leaves.
Context `{E : Engine}.
Import types prepareDataToFiles.

Lemma in_leaves_object (props : list (string * any)) (leaf : list string * any) :
  In leaf (leaves (JObject props)) ->
  exists key v, In (key, v) props /\
    ((is_nested v = false /\ leaf = ([key], v)) \/
     (is_nested v = true /\ exists names, fst leaf = key :: names /\
                                          In (names, snd leaf) (leaves v))).
Proof.
  rewrite leaves_object, in_flat_map. intros [[key v] [Hin Hleaf]].
  exists key, v. split; [assumption|].
  unfold below in Hleaf. simpl in Hleaf. destruct (is_nested v).
  - right. split; [reflexivity|].
    apply in_map_iff in Hleaf as [[names x] [<- Hx]]. simpl. now exists names.
  - left. split; [reflexivity|]. destruct Hleaf as [<-|[]]. reflexivity.
Qed.

Lemma simple_leaf (v : any) :
  simple v = true -> is_nested v = false -> occurs comma (cell_text v) = false.
Proof.
  destruct v; simpl; intros H Hn; try discriminate; try reflexivity;
    now apply negb_true_iff in H.
Qed.

(** What [simple] gives for every leaf: names without dot or comma, a
    value that is not an object, a text without comma. *)
Lemma leaves_simple (v : any) :
  simple v = true ->
  forall names x, In (names, x) (leaves v) ->
    names <> [] /\
    Forall (fun name => occurs dot name = false) names /\
    Forall (fun name => occurs comma name = false) names /\
    is_nested x = false /\
    occurs comma (cell_text x) = false.
Proof.
  induction v as [| | | | |props IH|elems _] using any_ind;
    intros Hsimple names x Hin; try contradiction.
  apply simple_object in Hsimple as [_ Hall].
  apply in_leaves_object in Hin as [key [v [Hkv Hcase]]].
  rewrite Forall_forall in IH, Hall.
  destruct (Hall _ Hkv) as [Hdot [Hcomma Hv]]. simpl in Hdot, Hcomma, Hv.
  destruct Hcase as [[Hn Heq]|[Hn [rest [Heq Hrest]]]].
  - injection Heq as -> ->.
    repeat split; try discriminate; auto using simple_leaf.
  - simpl in Heq, Hrest. subst names.
    destruct (IH _ Hkv Hv _ _ Hrest) as [_ [Hd [Hc [Hx Ht]]]].
    repeat split; try discriminate; auto.
Qed.

Lemma distinct_NoDup (names : list string) :
  distinct names = true -> NoDup names.
Proof.
  induction names as [|name rest IH]; simpl; intros H.
  - constructor.
  - apply andb_prop in H as [Hfresh Hrest]. constructor; [|now apply IH].
    intros Hin. apply negb_true_iff in Hfresh.
    assert (existsb (String.eqb name) rest = true) as Habs.
    { apply existsb_exists. exists name. split; [assumption|apply String.eqb_refl]. }
    congruence.
Qed.

Lemma assoc_distinct (props : list (string * any)) (key : string) (v : any) :
  distinct (map fst props) = true -> In (key, v) props -> assoc key props = Some v.
Proof.
  intros Hd. apply distinct_NoDup in Hd.
  induction props as [|[k x] rest IH]; intros Hin; [contradiction|].
  simpl in Hd. inversion Hd as [|? ? Hfresh Hrest]; subst.
  simpl. destruct Hin as [Heq|Hin].
  - injection Heq as -> ->. now rewrite String.eqb_refl.
  - destruct (String.eqb_spec k key) as [->|_].
    + exfalso. apply Hfresh. apply in_map_iff. now exists (key, v).
    + now apply IH.
Qed.

(** The names of different leaves differ. *)
Lemma leaves_NoDup (v : any) :
  simple v = true -> NoDup (map fst (leaves v)).
Proof.
  induction v as [| | | | |props IH|elems _] using any_ind;
    intros Hsimple; try constructor.
  apply simple_object in Hsimple as [Hd Hall]. apply distinct_NoDup in Hd.
  rewrite leaves_object.
  induction props as [|[key v] rest IHrest]; [constructor|].
  inversion IH as [|? ? IHv IHothers]; subst.
  inversion Hall as [|? ? [_ [_ Hv]] Hothers]; subst.
  simpl in Hd. inversion Hd as [|? ? Hfresh Hrest]; subst.
  simpl in IHv, Hv. simpl flat_map. rewrite map_app.
  apply NoDup_app.
  - unfold below. simpl. destruct (is_nested v).
    + rewrite map_map. simpl.
      rewrite <- (map_map fst (cons key)).
      apply NoDup_map_NoDup_ForallPairs; [|now apply IHv].
      intros a b _ _ Heq. now injection Heq.
    + simpl. constructor; [intros []|constructor].
  - now apply IHrest.
  - intros names Hhere Hthere. apply Hfresh.
    assert (Hhead : exists tail, names = key :: tail).
    { unfold below in Hhere. simpl in Hhere. destruct (is_nested v).
      - rewrite map_map in Hhere. simpl in Hhere.
        apply in_map_iff in Hhere as [leaf [<- _]]. now exists (fst leaf).
      - destruct Hhere as [<-|[]]. now exists []. }
    destruct Hhead as [tail ->].
    apply in_map_iff in Hthere as [leaf [Hfst Hleaf]].
    rewrite <- leaves_object in Hleaf.
    apply in_leaves_object in Hleaf as [k [x [Hkx Hcase]]].
    apply in_map_iff. exists (k, x). split; [|assumption]. simpl.
    destruct Hcase as [[_ ->]|[_ [names [Heq _]]]].
    + simpl in Hfst. now injection Hfst.
    + rewrite Heq in Hfst. now injection Hfst.
Qed.

(** Following the names of a leaf from the root reaches the leaf. *)
Lemma reduce_leaf (v : any) :
  simple v = true ->
  forall names x, In (names, x) (leaves v) ->
    reduce optional_get names (Val v) = Normal (Val x).
Proof.
  induction v as [| | | | |props IH|elems _] using any_ind;
    intros Hsimple names x Hin; try contradiction.
  pose proof Hsimple as Hs.
  apply simple_object in Hs as [Hd Hall].
  apply in_leaves_object in Hin as [key [v [Hkv Hcase]]].
  rewrite Forall_forall in IH, Hall.
  destruct (Hall _ Hkv) as [_ [_ Hv]]. simpl in Hv.
  pose proof (assoc_distinct props key v Hd Hkv) as Hassoc.
  destruct Hcase as [[Hn Heq]|[Hn [rest [Heq Hrest]]]].
  - injection Heq as -> ->. simpl. now rewrite Hassoc.
  - simpl in Heq, Hrest. subst names. simpl. rewrite Hassoc. simpl.
    now apply (IH _ Hkv Hv).
Qed.

End Leaves.

Section Conversion.
Context `{E : Engine}.
Import types prepareDataToFiles.

Lemma Set_add_fresh (key : string) (allKeys : list string) :
  ~ In key allKeys -> Set_add key allKeys = (allKeys ++ [key])%list.
Proof.
  intros Hfresh. unfold Set_add.
  destruct (existsb (String.eqb key) allKeys) eqn:Hex; [|reflexivity].
  apply existsb_exists in Hex as [k [Hin Heq]].
  apply String.eqb_eq in Heq. subst k. contradiction.
Qed.

Lemma add_all_fresh (keys allKeys : list string) :
  NoDup (allKeys ++ keys) -> add_all keys allKeys = (allKeys ++ keys)%list.
Proof.
  revert allKeys. induction keys as [|key rest IH]; intros allKeys Hnd.
  - now rewrite app_nil_r.
  - simpl. rewrite Set_add_fresh.
    + rewrite IH; rewrite <- app_assoc; [reflexivity|assumption].
    + apply NoDup_remove_2 in Hnd. intros Hin. apply Hnd.
      apply in_or_app. now left.
Qed.

Lemma map_throwing_map {A B C : Type} (f : B -> outcome C) (g : A -> B) (h : A -> C)
  (xs : list A) :
  (forall x, In x xs -> f (g x) = Normal (h x)) ->
  map_throwing f (map g xs) = Normal (map h xs).
Proof.
  induction xs as [|x rest IH]; intros Hall.
  - reflexivity.
  - simpl. rewrite (Hall x (or_introl eq_refl)). simpl.
    rewrite IH; [reflexivity|]. intros y Hy. apply Hall. now right.
Qed.

(** The cell that [getValue] and [join] make of a leaf. *)
Lemma join_element_leaf (x : any) :
  is_nested x = false ->
  join_element (Val (if nullish x then JString "" else x)) = Normal (cell_text x).
Proof. destruct x; simpl; intros H; try discriminate; reflexivity. Qed.

Lemma nth_error_map_some {A B : Type} (f : A -> B) (xs : list A) (i : nat) (x : A) :
  nth_error xs i = Some x -> nth_error (map f xs) i = Some (f x).
Proof. intros H. rewrite nth_error_map, H. reflexivity. Qed.

Lemma tabular_object (payload : any) :
  tabular payload = true ->
  simple payload = true /\ is_nested payload = true /\ own_names_not_empty payload = true.
Proof.
  destruct payload; try discriminate. unfold tabular. intros H.
  apply andb_prop in H as [H _]. apply andb_prop in H as [Hs Hn]. auto.
Qed.

Lemma tabular_one_line (payload : any) :
  tabular payload = true -> one_line payload = true.
Proof.
  destruct payload; try discriminate. unfold tabular. intros H.
  now apply andb_prop in H as [_ H].
Qed.

Lemma one_line_object (props : list (string * any)) :
  one_line (JObject props) = true ->
  Forall (fun kv => occurs line_feed (fst kv) = false /\ one_line (snd kv) = true) props.
Proof.
  simpl. induction props as [|[key v] rest IH]; intros Hall; [constructor|].
  apply andb_prop in Hall as [Hall Hrest]. apply andb_prop in Hall as [Hkey Hv].
  apply negb_true_iff in Hkey. constructor; [simpl; auto|now apply IH].
Qed.

Lemma one_line_leaf (v : any) :
  one_line v = true -> is_nested v = false -> occurs line_feed (cell_text v) = false.
Proof.
  destruct v; try discriminate; simpl; intros H _;
    try reflexivity; now apply negb_true_iff in H.
Qed.

(** The names and the text of the leaves of a value of one line hold no
    line feed. *)
Lemma leaves_one_line (v : any) :
  one_line v = true ->
  forall names x, In (names, x) (leaves v) ->
    Forall (fun name => occurs line_feed name = false) names /\
    occurs line_feed (cell_text x) = false.
Proof.
  induction v as [| | | | |props IH|elems _] using any_ind;
    intros Hline names x Hin; try contradiction.
  apply one_line_object in Hline.
  apply in_leaves_object in Hin as [key [v [Hkv Hcase]]].
  rewrite Forall_forall in IH, Hline.
  destruct (Hline _ Hkv) as [Hkey Hv]. simpl in Hkey, Hv.
  destruct Hcase as [[Hn Heq]|[Hn [rest [Heq Hrest]]]].
  - injection Heq as -> ->. split; [auto|now apply one_line_leaf].
  - simpl in Heq, Hrest. subst names.
    destruct (IH _ Hkv Hv _ _ Hrest) as [Hnames Htext]. split; auto.
Qed.

(** A header line and a data line without line feed are the two lines of
    the text they are joined to. *)
Lemma split_lines (names texts : list string) :
  Forall (fun name => occurs line_feed name = false) names ->
  Forall (fun text => occurs line_feed text = false) texts ->
  split line_feed (String.concat "," names ++ newline ++ String.concat "," texts)
  = [String.concat "," names; String.concat "," texts].
Proof.
  intros Hnames Htexts.
  assert (Hfree : forall fields,
             Forall (fun field => occurs line_feed field = false) fields ->
             occurs line_feed (String.concat "," fields) = false).
  { intros fields Hfields. now apply (occurs_concat line_feed comma). }
  change (newline ++ String.concat "," texts)
    with (String line_feed (String.concat "," texts)).
  rewrite split_field by now apply Hfree.
  rewrite split_free by now apply Hfree.
  reflexivity.
Qed.

Lemma split_line (fields : list string) :
  Forall (fun field => occurs comma field = false) fields ->
  split comma (String.concat "," fields) = match fields with [] => [""] | _ => fields end.
Proof.
  intros Hfree. destruct fields as [|f rest]; [reflexivity|].
  apply (split_concat comma); [discriminate|assumption].
Qed.

(** C3, as the code has it: for a payload that is an object without
    arrays, whose field names are distinct, hold neither dot, comma nor
    line feed and are not empty at the root, and whose leaves print
    without comma and line feed, the text the conversion yields has
    exactly two lines, the header line and the data line of the table of
    its leaves. Both lines have the same number of comma-separated fields,
    and the i-th leaf has its dot-joined path as the i-th field of the
    header line and its text, unescaped, as the i-th field of the data
    line ([null] as the empty field). *)
Theorem convertToCSV_table (data : CloudflareData) :
  tabular (radarData data) = true ->
  let table := leaves (radarData data) in
  let header := String.concat "," (map (fun leaf => dotted (fst leaf)) table) in
  let row := String.concat "," (map (fun leaf => cell_text (snd leaf)) table) in
  convertToCSV data = Normal (header ++ newline ++ row) /\
  split line_feed (header ++ newline ++ row) = [header; row] /\
  List.length (split comma header) = List.length (split comma row) /\
  forall i names x,
    nth_error table i = Some (names, x) ->
    nth_error (split comma header) i = Some (dotted names) /\
    nth_error (split comma row) i = Some (cell_text x).
Proof.
  intros Htab table header row.
  destruct (tabular_object _ Htab) as [Hsimple [Hnested Hnames]].
  pose proof (leaves_simple _ Hsimple) as Hleaves. fold table in Hleaves.
  pose proof (leaves_one_line _ (tabular_one_line _ Htab)) as Hlines. fold table in Hlines.
  assert (Hheaders : flattenObject (radarData data) "" []
                     = map (fun leaf => dotted (fst leaf)) table).
  { change "" with (dotted []).
    rewrite flattenObject_leaves; try assumption; [|auto|intros H; now elim H].
    simpl. rewrite add_all_fresh; [reflexivity|]. simpl.
    rewrite <- (map_map fst dotted).
    apply NoDup_map_NoDup_ForallPairs; [|now apply leaves_NoDup].
    intros a b Ha Hb Heq.
    apply in_map_iff in Ha as [[na xa] [<- Ha]].
    apply in_map_iff in Hb as [[nb xb] [<- Hb]].
    simpl in *.
    destruct (Hleaves _ _ Ha) as [Hane [Hadot _]].
    destruct (Hleaves _ _ Hb) as [Hbne [Hbdot _]].
    rewrite <- (split_concat dot na), <- (split_concat dot nb) by assumption.
    unfold dotted in Heq. change (String dot "") with ".". now rewrite Heq. }
  assert (Hhead_free : Forall (fun field => occurs comma field = false)
                              (map (fun leaf => dotted (fst leaf)) table)).
  { apply Forall_forall. intros field Hin.
    apply in_map_iff in Hin as [[names x] [<- Hin]]. simpl.
    destruct (Hleaves _ _ Hin) as [_ [_ [Hcomma _]]].
    now apply (occurs_concat comma dot). }
  assert (Hrow_free : Forall (fun field => occurs comma field = false)
                             (map (fun leaf => cell_text (snd leaf)) table)).
  { apply Forall_forall. intros field Hin.
    apply in_map_iff in Hin as [[names x] [<- Hin]]. simpl.
    now destruct (Hleaves _ _ Hin) as [_ [_ [_ [_ Htext]]]]. }
  split; [|split; [|split]].
  2:{ apply split_lines; apply Forall_forall; intros field Hin;
        apply in_map_iff in Hin as [[names x] [<- Hin]]; simpl;
        destruct (Hlines _ _ Hin) as [Hnames' Htext].
      - now apply (occurs_concat line_feed dot).
      - assumption. }
  - unfold convertToCSV. rewrite Hheaders.
    rewrite (map_throwing_map _ _
               (fun leaf => Val (if nullish (snd leaf) then JString "" else snd leaf))).
    + simpl. unfold join.
      rewrite (map_throwing_map _ _ (fun leaf => cell_text (snd leaf))).
      * reflexivity.
      * intros [names x] Hin. simpl.
        destruct (Hleaves _ _ Hin) as [_ [_ [_ [Hx _]]]].
        now apply join_element_leaf.
    + intros [names x] Hin. simpl. unfold getValue.
      destruct (Hleaves _ _ Hin) as [Hne [Hdot _]].
      unfold dotted. change "." with (String dot "").
      rewrite split_concat by assumption.
      rewrite (reduce_leaf _ Hsimple _ _ Hin). simpl.
      now destruct (nullish x).
  - unfold header, row. rewrite !split_line by assumption.
    destruct table; simpl; [reflexivity|]. now rewrite !length_map.
  - intros i names x Hnth.
    unfold header, row. rewrite !split_line by assumption.
    destruct table as [|leaf rest] eqn:Ht.
    + now destruct i.
    + rewrite <- Ht in *. 
      assert (Hm1 : map (fun leaf => dotted (fst leaf)) table <> []) by (rewrite Ht; discriminate).
      assert (Hm2 : map (fun leaf => cell_text (snd leaf)) table <> []) by (rewrite Ht; discriminate).
      destruct (map (fun leaf => dotted (fst leaf)) table) eqn:H1; [contradiction|].
      destruct (map (fun leaf => cell_text (snd leaf)) table) eqn:H2; [contradiction|].
      rewrite <- H1, <- H2. split.
      * now apply (nth_error_map_some (fun leaf => dotted (fst leaf)) _ _ _ Hnth).
      * now apply (nth_error_map_some (fun leaf => cell_text (snd leaf)) _ _ _ Hnth).
Qed.

End Conversion.

(** ** prepareDataToFiles: what reaches the bucket *)

Section Bucket.
Context `{E : Engine}.
Import types prepareDataToFiles.

Lemma same_setting_trans (w1 w2 w3 : World) :
  same_setting w1 w2 -> same_setting w2 w3 -> same_setting w1 w3.
Proof.
  intros [H1 [H2 H3]] [H4 [H5 H6]]. repeat split; congruence.
Qed.

Lemma firstn_within {A : Type} (k : nat) (xs ys : list A) :
  firstn k xs = firstn (Nat.min k (List.length xs)) (xs ++ ys).
Proof.
  rewrite firstn_app.
  replace (Nat.min k (List.length xs) - List.length xs) with 0 by lia.
  simpl. rewrite app_nil_r.
  destruct (Nat.le_ge_cases k (List.length xs)) as [Hle|Hge].
  - now rewrite Nat.min_l.
  - rewrite Nat.min_r by assumption. now rewrite !firstn_all2 by lia.
Qed.

(** One turn of the loop either sends the two objects of its entry, or
    throws after it has sent the first ones of them, and none at all when
    the status of the entry is not 200. *)
Lemma process_runs (timestamp : string) (index : nat) (result : BatchResult)
  (count : nat) (w : World) :
  match process timestamp index result count w with
  | (Normal count', w') =>
      count' = count + 1 /\
      statusCode result = 200%Z /\
      (exists data csv,
          body result = fetched data /\ convertToCSV data = Normal csv /\
          objects_of (BUCKET_NAME w) timestamp result
          = [json_object (BUCKET_NAME w) timestamp data;
             csv_object (BUCKET_NAME w) timestamp data csv]) /\
      s3_puts w' = (s3_puts w ++ objects_of (BUCKET_NAME w) timestamp result)%list /\
      same_setting w w'
  | (Throw _, w') =>
      (exists k, s3_puts w' = (s3_puts w ++ firstn k (objects_of (BUCKET_NAME w) timestamp result))%list) /\
      (statusCode result <> 200%Z -> s3_puts w' = s3_puts w) /\
      same_setting w w'
  end.
Proof.
  unfold process.
  destruct (Z.eqb_spec (statusCode result) 200) as [Hok|Hbad]; simpl.
  2:{ unfold throw. repeat split. exists 0. simpl. now rewrite app_nil_r. }
  unfold objects_of.
  destruct (body result) as [data|error message_ timestamp_] eqn:Hbody.
  2:{ unfold lift, TypeError. repeat split; try tauto.
      exists 0. simpl. now rewrite app_nil_r. }
  unfold bind, lift.
  destruct (member (connectorParams data) "exchange_id") as [x|e].
  2:{ repeat split; try tauto. exists 0. simpl. now rewrite app_nil_r. }
  destruct (member (connectorParams data) "ticker_symbol") as [y|e].
  2:{ repeat split; try tauto. exists 0. simpl. now rewrite app_nil_r. }
  unfold the_BUCKET_NAME, s3Client_send, ret.
  destruct (s3_rejects w (s3_commands w)) as [e|]; simpl.
  { repeat split; try tauto. exists 0. simpl. now rewrite app_nil_r. }
  destruct (convertToCSV data) as [csv|e] eqn:Hcsv; simpl.
  2:{ repeat split; try tauto. exists 1. reflexivity. }
  destruct (s3_rejects w (S (s3_commands w))) as [e|]; simpl.
  { repeat split; try tauto. exists 1. reflexivity. }
  repeat split; try assumption.
  - exists data, csv. rewrite Hcsv. repeat split.
  - now rewrite <- app_assoc.
Qed.

(** A loop that runs to its end has sent the objects of every entry. *)
Lemma for_of_completes (timestamp : string) (results : list BatchResult) :
  forall (index count : nat) (w : World) (count' : nat) (w' : World),
    for_of timestamp index results count w = (Normal count', w') ->
    s3_puts w' = (s3_puts w ++ batch_objects (BUCKET_NAME w) timestamp results)%list /\
    Forall (fun result =>
              statusCode result = 200%Z /\
              exists data csv,
                body result = fetched data /\ convertToCSV data = Normal csv /\
                objects_of (BUCKET_NAME w) timestamp result
                = [json_object (BUCKET_NAME w) timestamp data;
                   csv_object (BUCKET_NAME w) timestamp data csv]) results /\
    count' = count + List.length results /\
    same_setting w w'.
Proof.
  induction results as [|result rest IH]; intros index count w count' w' Hrun.
  - injection Hrun as <- <-. simpl. rewrite app_nil_r, Nat.add_0_r.
    repeat split. constructor.
  - simpl in Hrun. unfold bind in Hrun at 1.
    pose proof (process_runs timestamp index result count w) as Hturn.
    destruct (process timestamp index result count w) as [[count1|e] w1]; [|discriminate].
    destruct Hturn as [-> [Hok [Hdata [Hputs Hsame]]]].
    destruct (IH _ _ _ _ _ Hrun) as [Hputs' [Hall [-> Hsame']]].
    pose proof Hsame as [_ [_ Hbucket]]. rewrite Hbucket in *.
    repeat split.
    + rewrite Hputs', Hputs. simpl. now rewrite <- app_assoc.
    + constructor; [split; assumption|assumption].
    + simpl. lia.
    + destruct (same_setting_trans _ _ _ Hsame Hsame') as [H1 _]. exact H1.
    + destruct (same_setting_trans _ _ _ Hsame Hsame') as [_ [H2 _]]. exact H2.
    + destruct (same_setting_trans _ _ _ Hsame Hsame') as [_ [_ H3]]. exact H3.
Qed.

(** A loop over a batch with an entry whose status is not 200 throws, and
    has sent only objects of the entries before that entry. *)
Lemma for_of_stops (timestamp : string) (before : list BatchResult)
  (bad : BatchResult) (after : list BatchResult) :
  statusCode bad <> 200%Z ->
  forall (index count : nat) (w : World),
  exists error w',
    for_of timestamp index (before ++ bad :: after) count w = (Throw error, w') /\
    (exists k, s3_puts w' = (s3_puts w ++ firstn k (batch_objects (BUCKET_NAME w) timestamp before))%list) /\
    same_setting w w'.
Proof.
  intros Hbad. induction before as [|result rest IH]; intros index count w.
  - simpl. unfold bind.
    pose proof (process_runs timestamp index bad count w) as Hturn.
    destruct (process timestamp index bad count w) as [[count1|e] w1].
    + destruct Hturn as [_ [Hok _]]. contradiction.
    + destruct Hturn as [_ [Hnone Hsame]]. exists e, w1. repeat split; try apply Hsame.
      exists 0. simpl. rewrite app_nil_r. now apply Hnone.
  - simpl app. simpl for_of. unfold bind at 1.
    pose proof (process_runs timestamp index result count w) as Hturn.
    destruct (process timestamp index result count w) as [[count1|e] w1].
    + destruct Hturn as [_ [_ [_ [Hputs Hsame]]]].
      destruct (IH (S index) count1 w1) as [error [w' [Hrun [[k Hk] Hsame']]]].
      exists error, w'. split; [assumption|]. split.
      * exists (List.length (objects_of (BUCKET_NAME w) timestamp result) + k).
        pose proof Hsame as [_ [_ Hbucket]]. rewrite Hbucket in Hk.
        rewrite Hk, Hputs. unfold batch_objects. simpl flat_map.
        rewrite firstn_app_2. now rewrite <- app_assoc.
      * now apply (same_setting_trans _ _ _ Hsame Hsame').
    + destruct Hturn as [[k Hk] [_ Hsame]].
      exists e, w1. split; [reflexivity|]. split; [|assumption].
      exists (Nat.min k (List.length (objects_of (BUCKET_NAME w) timestamp result))).
      rewrite Hk. unfold batch_objects. simpl flat_map. f_equal. apply firstn_within.
Qed.

(** With an S3 that accepts every command, a turn over a writable entry
    sends both objects. *)
Lemma process_writes (timestamp : string) (index : nat) (result : BatchResult)
  (count : nat) (w : World) :
  (forall n, s3_rejects w n = None) ->
  writable result = true ->
  exists w',
    process timestamp index result count w = (Normal (count + 1), w') /\
    s3_puts w' = (s3_puts w ++ objects_of (BUCKET_NAME w) timestamp result)%list /\
    List.length (objects_of (BUCKET_NAME w) timestamp result) = 2 /\
    s3_rejects w' = s3_rejects w /\
    same_setting w w'.
Proof.
  intros Haccepts Hwritable. unfold writable in Hwritable.
  apply andb_prop in Hwritable as [Hok Hbody].
  unfold process, objects_of. rewrite Hok. cbn [negb].
  destruct (body result) as [data|] eqn:Hdata; [|discriminate].
  apply andb_prop in Hbody as [Hparams Hcsv]. apply negb_true_iff in Hparams.
  unfold bind, lift.
  destruct (member_defined (connectorParams data) "exchange_id" Hparams) as [x ->].
  destruct (member_defined (connectorParams data) "ticker_symbol" Hparams) as [y ->].
  unfold the_BUCKET_NAME, s3Client_send, ret.
  rewrite (Haccepts (s3_commands w)). simpl.
  destruct (convertToCSV data) as [csv|]; [|discriminate]. simpl.
  rewrite (Haccepts (S (s3_commands w))). simpl.
  eexists. split; [reflexivity|]. simpl.
  repeat split. now rewrite <- app_assoc.
Qed.

(** With such an S3 and writable entries before the entry that is not
    200, every object of those entries is in the bucket when the loop
    throws. *)
Lemma for_of_writes_before (timestamp : string) (before : list BatchResult)
  (bad : BatchResult) (after : list BatchResult) :
  statusCode bad <> 200%Z ->
  forallb writable before = true ->
  forall (index count : nat) (w : World),
    (forall n, s3_rejects w n = None) ->
    exists error w',
      for_of timestamp index (before ++ bad :: after) count w = (Throw error, w') /\
      s3_puts w' = (s3_puts w ++ batch_objects (BUCKET_NAME w) timestamp before)%list /\
      List.length (batch_objects (BUCKET_NAME w) timestamp before) = 2 * List.length before.
Proof.
  intros Hbad. induction before as [|result rest IH]; intros Hall index count w Haccepts.
  - destruct (for_of_stops timestamp [] bad after Hbad index count w)
      as [error [w' [Hrun [[k Hk] _]]]].
    exists error, w'. split; [exact Hrun|]. split; [|reflexivity].
    rewrite Hk. now destruct k.
  - simpl in Hall. apply andb_prop in Hall as [Hresult Hrest].
    destruct (process_writes timestamp index result count w Haccepts Hresult)
      as [w1 [Hturn [Hputs [Htwo [Hrejects [_ [_ Hbucket]]]]]]].
    assert (Haccepts1 : forall n, s3_rejects w1 n = None).
    { intros n. rewrite Hrejects. apply Haccepts. }
    destruct (IH Hrest (S index) (count + 1) w1 Haccepts1)
      as [error [w' [Hrun [Hputs' Hlength]]]].
    exists error, w'. rewrite Hbucket in Hputs', Hlength. split; [|split].
    + simpl app. simpl for_of. unfold bind at 1. rewrite Hturn. exact Hrun.
    + rewrite Hputs', Hputs. unfold batch_objects. simpl flat_map.
      now rewrite <- app_assoc.
    + unfold batch_objects in *. simpl flat_map. rewrite length_app, Htwo, Hlength.
      simpl. lia.
Qed.

End Bucket.

Section Writer.
Context `{E : Engine}.
Import types prepareDataToFiles.

Lemma handler_unfold (event : BatchResults) (w : World) :
  handler event w =
  match for_of (start_of w) 0 (batchResults event) 0 (started w) with
  | (Normal processedCount, w1) =>
      (Normal (mkLambdaResponse 200
         (JObject [("message", JString "Data processing completed");
                   ("bucketName", JString (BUCKET_NAME w1));
                   ("processedCount", JNumber (Number_of_Z (Z.of_nat processedCount)));
                   ("processingTimeMs",
                    JNumber (Number_of_Z (getTime (clock w1 (clock_reads w1))
                                          - getTime (clock w (clock_reads w)))));
                   ("startTime", JString (start_of w));
                   ("endTime", JString (toISOString (clock w1 (clock_reads w1))))])),
       started w1)
  | (Throw error, w1) =>
      (Normal (failure "Failed to process data" error (clock w1 (clock_reads w1))),
       started w1)
  end.
Proof.
  unfold handler, bind at 1, new_Date, try_catch, bind at 1.
  fold (started w). fold (start_of w).
  destruct (for_of (start_of w) 0 (batchResults event) 0 (started w)) as [[n|e] w1];
    reflexivity.
Qed.

(** C9, as the code has it: an invocation that answers 200 has sent, for
    every entry of the batch in turn, exactly two objects, the JSON
    document under [{orgId}/{start}/data.json] and the CSV text under
    [{orgId}/{start}/data.csv], where [orgId] is the entry's own and
    [start] is the time at which the invocation started, the same for
    every entry. *)
Theorem handler_two_objects_per_entry (event : BatchResults) (w : World)
  (answer : LambdaResponse) (w' : World) :
  handler event w = (Normal answer, w') ->
  types.statusCode answer = 200%Z ->
  s3_puts w' = (s3_puts w ++ batch_objects (BUCKET_NAME w) (start_of w) (batchResults event))%list /\
  Forall (fun result =>
            exists data csv,
              body result = fetched data /\
              convertToCSV data = Normal csv /\
              objects_of (BUCKET_NAME w) (start_of w) result
              = [mkPutObjectCommand (BUCKET_NAME w)
                   (orgId data ++ "/" ++ start_of w ++ "/data.json")
                   (JSON_stringify data) "application/json";
                 mkPutObjectCommand (BUCKET_NAME w)
                   (orgId data ++ "/" ++ start_of w ++ "/data.csv")
                   (plain csv) "text/csv"])
         (batchResults event).
Proof.
  rewrite handler_unfold. intros Hrun Hok.
  destruct (for_of (start_of w) 0 (batchResults event) 0 (started w))
    as [[n|e] w1] eqn:Hloop.
  - injection Hrun as _ <-.
    destruct (for_of_completes _ _ _ _ _ _ _ Hloop) as [Hputs [Hall _]].
    split; [exact Hputs|].
    eapply Forall_impl; [|exact Hall].
    intros result [_ [data [csv [Hbody [Hcsv Hobjects]]]]].
    exists data, csv. repeat split; assumption.
  - injection Hrun as <- _. discriminate.
Qed.

(** C1, as the code has it: when an entry of the batch has a status other
    than 200 the invocation answers 500, and what it has sent to the
    bucket are objects of the entries before that entry only (none at all
    when it is the first entry): the first of those objects, in order,
    and all of them, two for each entry, when S3 accepts every command
    and those entries are writable. Nothing takes them back. *)
Theorem handler_stops_at_failed_entry (event : BatchResults) (w : World)
  (before : list BatchResult) (bad : BatchResult) (after : list BatchResult) :
  batchResults event = (before ++ bad :: after)%list ->
  statusCode bad <> 200%Z ->
  exists error errorTime w',
    handler event w = (Normal (failure "Failed to process data" error errorTime), w') /\
    (exists k,
        s3_puts w'
        = (s3_puts w ++ firstn k (batch_objects (BUCKET_NAME w) (start_of w) before))%list) /\
    ((forall n, s3_rejects w n = None) ->
     forallb writable before = true ->
     s3_puts w' = (s3_puts w ++ batch_objects (BUCKET_NAME w) (start_of w) before)%list /\
     List.length (batch_objects (BUCKET_NAME w) (start_of w) before) = 2 * List.length before).
Proof.
  intros Hbatch Hbad. rewrite handler_unfold, Hbatch.
  destruct (for_of_stops (start_of w) before bad after Hbad 0 0 (started w))
    as [error [w1 [Hloop [[k Hk] _]]]].
  rewrite Hloop. exists error, (clock w1 (clock_reads w1)), (started w1).
  split; [reflexivity|]. split; [exists k; exact Hk|].
  intros Haccepts Hwritable.
  destruct (for_of_writes_before (start_of w) before bad after Hbad Hwritable 0 0
              (started w) Haccepts)
    as [error' [w1' [Hloop' [Hputs Hlength]]]].
  rewrite Hloop in Hloop'. injection Hloop' as _ <-.
  split; [exact Hputs|exact Hlength].
Qed.

End Writer.

Section WriterExamples.
Import types prepareDataToFiles Examples.
#[local] Existing Instance integer_engine.

(** C1 does not hold as stated: on a batch of a fetched entry and a
    failed one the invocation answers 500, and the two objects of the
    first entry are in the bucket. *)
Lemma mixed_batch_is_partly_written :
  fst (handler mixed_batch world)
  = Normal (failure "Failed to process data"
                    (mkError "Invalid status code 500 for record 2") (ticking 1)) /\
  s3_puts (snd (handler mixed_batch world))
  = [mkPutObjectCommand "stepfunction-poc-bucket-12345"
       "155/2024-03-21T05:46:40.000Z/data.json"
       (JSON_stringify (fetch "155" nested)) "application/json";
     mkPutObjectCommand "stepfunction-poc-bucket-12345"
       "155/2024-03-21T05:46:40.000Z/data.csv"
       (plain ("a.b,a.c,d" ++ newline ++ "1,2,3")) "text/csv"].
Proof. split; vm_compute; reflexivity. Qed.

(** C9 does not hold as stated: for an entry fetched at 10:30:00 on
    20 March and written by an invocation that starts at 05:46:40 on
    21 March, the keys carry the start of the invocation, not the
    timestamp of the entry. *)
Lemma keys_carry_the_start_of_the_invocation :
  option_map types.statusCode
    (match fst (handler single_batch world) with Normal r => Some r | Throw _ => None end)
  = Some 200%Z /\
  timestamp (fetch "155" nested) = "2024-03-20T10:30:00.000Z" /\
  map Key (s3_puts (snd (handler single_batch world)))
  = ["155/2024-03-21T05:46:40.000Z/data.json"; "155/2024-03-21T05:46:40.000Z/data.csv"] /\
  ~ In ("155/" ++ timestamp (fetch "155" nested) ++ "/data.json")
       (map Key (s3_puts (snd (handler single_batch world)))).
Proof.
  repeat split; try (vm_compute; reflexivity).
  vm_compute. intros [H|[H|[]]]; discriminate.
Qed.

End WriterExamples.

(** ** The stages before the fan-out *)

Section Stages.
Context `{E : Engine}.
Import types.

Lemma has_string_assoc (props : list (string * any)) (name : string) :
  has_string props name = true -> exists s, assoc name props = Some (JString s).
Proof.
  unfold has_string. destruct (assoc name props) as [[]|]; try discriminate. eauto.
Qed.

(** What the shape of a [ProviderResponse] gives. *)
Lemma ProviderResponse_orgs (v : any) :
  is_ProviderResponse v = true ->
  exists props orgs,
    v = JObject props /\ assoc "orgs" props = Some (JArray orgs) /\
    forallb is_org orgs = true.
Proof.
  destruct v as [| | | | |props|]; try discriminate.
  unfold is_ProviderResponse. intros H.
  apply andb_prop in H as [_ H].
  destruct (assoc "orgs" props) as [[| | | | | |orgs]|] eqn:Horgs; try discriminate.
  exists props, orgs. auto.
Qed.

Lemma org_fields (org : any) :
  is_org org = true ->
  exists id connectorParams,
    extractOrgs.extract org
    = Normal (JObject [("id", id); ("connectorParams", connectorParams)]) /\
    member org "orgId" = Normal id /\
    member org "connectorParams" = Normal connectorParams.
Proof.
  destruct org as [| | | | |props|]; try discriminate.
  unfold is_org. intros H.
  apply andb_prop in H as [Hid Hparams].
  apply has_string_assoc in Hid as [id Hid].
  destruct (assoc "connectorParams" props) as [params|] eqn:Hp; [|discriminate].
  exists (JString id), params.
  unfold extractOrgs.extract. rewrite !member_object, Hid, Hp. simpl. auto.
Qed.

Lemma map_extract (orgs : list any) :
  forallb is_org orgs = true ->
  exists orgIds,
    map_throwing extractOrgs.extract orgs = Normal orgIds /\
    Forall2 (fun org extracted =>
               exists id connectorParams,
                 member org "orgId" = Normal id /\
                 member org "connectorParams" = Normal connectorParams /\
                 extracted = JObject [("id", id); ("connectorParams", connectorParams)])
            orgs orgIds.
Proof.
  induction orgs as [|org rest IH]; simpl; intros H.
  - exists []. split; [reflexivity|constructor].
  - apply andb_prop in H as [Horg Hrest].
    destruct (org_fields _ Horg) as [id [params [Hx [Hid Hparams]]]].
    destruct (IH Hrest) as [orgIds [Hmap Hall]].
    exists (JObject [("id", id); ("connectorParams", params)] :: orgIds).
    rewrite Hx, Hmap. split; [reflexivity|].
    constructor; [|assumption]. now exists id, params.
Qed.

(** C2: on a [ProviderResponse] with N organisations the extraction
    answers 200 with N extracted organisations in the same order, the
    i-th with the [orgId] of the i-th organisation as its [id] and with
    that organisation's [connectorParams], unchanged. *)
Theorem extractOrgs_extracts_every_org (event providerData : any) (orgs : list any)
  (w : World) :
  member event "body" = Normal providerData ->
  is_ProviderResponse providerData = true ->
  member providerData "orgs" = Normal (JArray orgs) ->
  exists orgIds,
    extractOrgs.handler event w
    = (Normal (mkLambdaResponse 200 (JObject [("orgIds", JArray orgIds)])), w) /\
    List.length orgIds = List.length orgs /\
    forall i org,
      nth_error orgs i = Some org ->
      exists id connectorParams,
        member org "orgId" = Normal id /\
        member org "connectorParams" = Normal connectorParams /\
        nth_error orgIds i = Some (JObject [("id", id); ("connectorParams", connectorParams)]).
Proof.
  intros Hbody Hshape Horgs.
  destruct (ProviderResponse_orgs _ Hshape) as [props [orgs' [-> [Hassoc Hall]]]].
  rewrite member_object, Hassoc in Horgs. injection Horgs as <-.
  destruct (map_extract _ Hall) as [orgIds [Hmap Hpairs]].
  exists orgIds. split; [|split].
  - unfold extractOrgs.handler, try_catch, bind, lift, ret.
    rewrite Hbody, !member_object, Hassoc.
    destruct (member_defined (JArray orgs') "length" eq_refl) as [n ->].
    simpl. now rewrite Hmap.
  - symmetry. exact (Forall2_length Hpairs).
  - intros i org Hnth. clear - Hpairs Hnth. revert i Hnth.
    induction Hpairs as [|o x os xs Hox _ IH]; intros i Hnth.
    + now destruct i.
    + destruct i as [|i].
      * injection Hnth as <-. destruct Hox as [id [params [H1 [H2 ->]]]].
        now exists id, params.
      * now apply IH.
Qed.

(** C8: when [event.body.orgs] is absent or is anything but an array, the
    extraction does not succeed: it answers 500 with the error
    [Failed to extract organization data] and the message of what was
    thrown. *)
Theorem extractOrgs_rejects_missing_orgs (event : any) (w : World) :
  (forall orgs, orgs_of event <> Normal (JArray orgs)) ->
  exists error,
    fst (extractOrgs.handler event w)
    = Normal (failure "Failed to extract organization data" error
                      (clock w (S (clock_reads w)))).
Proof.
  intros Hnot. unfold orgs_of in Hnot.
  unfold extractOrgs.handler, try_catch, bind, lift, ret, new_Date.
  destruct (member event "body") as [providerData|e]; simpl in *; [|eexists; reflexivity].
  destruct (nullish providerData) eqn:Hnull.
  { rewrite (member_nullish _ "providerId" Hnull). unfold TypeError. eexists; reflexivity. }
  destruct (member_defined providerData "providerId" Hnull) as [x ->].
  destruct (member_defined providerData "providerName" Hnull) as [y ->].
  destruct (member providerData "orgs") as [orgs|e]; [|eexists; reflexivity].
  destruct (nullish orgs) eqn:Horgs.
  { rewrite (member_nullish _ "length" Horgs). unfold TypeError. eexists; reflexivity. }
  destruct (member_defined orgs "length" Horgs) as [n ->].
  destruct orgs; try discriminate; unfold extractOrgs.call_map, TypeError;
    try (eexists; reflexivity).
  exfalso. now apply (Hnot elems).
Qed.

(** *** Decryption *)

Import decryptionHandler.

Lemma assoc_define_same (key : string) (v : any) (props : list (string * any)) :
  assoc key (define_property key v props) = Some v.
Proof.
  induction props as [|[k old] rest IH]; simpl.
  - now rewrite String.eqb_refl.
  - destruct (String.eqb k key) eqn:Hk; simpl; rewrite Hk; [reflexivity|assumption].
Qed.

Lemma assoc_define_other (key name : string) (v : any) (props : list (string * any)) :
  name <> key -> assoc name (define_property key v props) = assoc name props.
Proof.
  intros Hne. induction props as [|[k old] rest IH]; simpl.
  - destruct (String.eqb_spec key name); [congruence|reflexivity].
  - destruct (String.eqb_spec k key) as [->|Hk]; simpl.
    + destruct (String.eqb_spec key name); [congruence|reflexivity].
    + destruct (String.eqb k name); [reflexivity|assumption].
Qed.

Lemma names_define (key : string) (v : any) (props : list (string * any)) :
  assoc key props <> None ->
  map fst (define_property key v props) = map fst props.
Proof.
  induction props as [|[k old] rest IH]; simpl; intros Hin.
  - contradiction.
  - destruct (String.eqb_spec k key) as [->|Hk]; simpl; [reflexivity|].
    now rewrite IH.
Qed.

Lemma define_twice (key : string) (v v' : any) (props : list (string * any)) :
  define_property key v (define_property key v' props) = define_property key v props.
Proof.
  induction props as [|[k old] rest IH]; simpl.
  - now rewrite String.eqb_refl.
  - destruct (String.eqb k key) eqn:Hk; simpl; rewrite Hk; [reflexivity|now rewrite IH].
Qed.

(** The decryption of an object whose [orgs] can be read. *)
Lemma decryption_of_object (event : any) (props : list (string * any)) (orgs : any)
  (w : World) :
  member event "body" = Normal (JObject props) ->
  assoc "orgs" props = Some orgs ->
  nullish orgs = false ->
  decryptionHandler.handler event w
  = (Normal (mkLambdaResponse 200
       (JObject (define_property "secrets" (JString "decrypted-secret-data") props))), w).
Proof.
  intros Hbody Horgs Hnull.
  unfold decryptionHandler.handler, try_catch, bind, lift, ret.
  rewrite Hbody, !member_object, Horgs.
  destruct (member_defined orgs "length" Hnull) as [n ->]. reflexivity.
Qed.

(** C6: on a [ProviderResponse] the decryption answers 200 with an object
    that has the same fields in the same order; [secrets] holds the
    decrypted form and every other field holds what it held. *)
Theorem decryption_replaces_only_secrets (event providerData : any) (w : World) :
  member event "body" = Normal providerData ->
  is_ProviderResponse providerData = true ->
  exists decryptedData,
    decryptionHandler.handler event w = (Normal (mkLambdaResponse 200 decryptedData), w) /\
    member decryptedData "secrets" = Normal (JString "decrypted-secret-data") /\
    (forall name, name <> "secrets" ->
                  member decryptedData name = member providerData name) /\
    map fst (entries decryptedData) = map fst (entries providerData).
Proof.
  intros Hbody Hshape.
  destruct (ProviderResponse_orgs _ Hshape) as [props [orgs [-> [Horgs _]]]].
  exists (JObject (define_property "secrets" (JString "decrypted-secret-data") props)).
  split; [|split; [|split]].
  - now apply (decryption_of_object event props (JArray orgs)).
  - now rewrite member_object, assoc_define_same.
  - intros name Hname. now rewrite !member_object, assoc_define_other.
  - simpl entries. apply names_define. unfold is_ProviderResponse in Hshape.
    apply andb_prop in Hshape as [Hshape _]. apply andb_prop in Hshape as [Hshape _].
    apply andb_prop in Hshape as [_ Hsecrets].
    apply has_string_assoc in Hsecrets as [s ->]. discriminate.
Qed.

(** C10: two [ProviderResponse] inputs of which the second is the first
    with another value under [secrets] are answered alike, in whatever
    worlds they arrive: the [secrets] of the answer is the constant
    ["decrypted-secret-data"]. *)
Theorem decryption_ignores_the_secret (event1 event2 : any)
  (props : list (string * any)) (secret : any) (w1 w2 : World) :
  member event1 "body" = Normal (JObject props) ->
  is_ProviderResponse (JObject props) = true ->
  member event2 "body" = Normal (JObject (define_property "secrets" secret props)) ->
  fst (decryptionHandler.handler event1 w1) = fst (decryptionHandler.handler event2 w2) /\
  exists decryptedData,
    fst (decryptionHandler.handler event2 w2) = Normal (mkLambdaResponse 200 decryptedData) /\
    member decryptedData "secrets" = Normal (JString "decrypted-secret-data").
Proof.
  intros Hbody1 Hshape Hbody2.
  destruct (ProviderResponse_orgs _ Hshape) as [props' [orgs [Heq [Horgs _]]]].
  injection Heq as <-.
  rewrite (decryption_of_object event1 props (JArray orgs) w1 Hbody1 Horgs eq_refl).
  rewrite (decryption_of_object event2 _ (JArray orgs) w2 Hbody2);
    [|rewrite assoc_define_other; [assumption|discriminate]|reflexivity].
  rewrite define_twice. split; [reflexivity|].
  eexists. split; [reflexivity|]. now rewrite member_object, assoc_define_same.
Qed.

End Stages.

(** ** The fetch *)

Section Fetch.
Context `{E : Engine}.
Import types cloudflareFetchHandler.

(** Whatever status the response carries, a body that parses makes the
    fetch answer 200 with that body as [radarData]. *)
Lemma fetch_answers_200_on_any_status (event id connectorParams : any) (w : World)
  (res_statusCode : option Z) (parsedData : any) :
  member event "id" = Normal id ->
  member event "connectorParams" = Normal connectorParams ->
  nullish connectorParams = false ->
  network w (requests w) = response res_statusCode (valid parsedData) ->
  parsedData <> JUndefined ->
  fst (handler event w)
  = Normal (mkLambdaResponse 200
      (JObject [("orgId", id);
                ("connectorParams", connectorParams);
                ("radarData", parsedData);
                ("timestamp", JString (toISOString (clock w (clock_reads w))))])).
Proof.
  intros Hid Hparams Hnull Hnet Hdata.
  unfold handler, try_catch, bind, lift, makeCloudflareRequest, bind, https_request.
  rewrite Hid, Hparams.
  destruct (member_defined connectorParams "exchange_id" Hnull) as [x ->].
  destruct (member_defined connectorParams "ticker_symbol" Hnull) as [y ->].
  rewrite Hnet. simpl.
  destruct parsedData; try contradiction; reflexivity.
Qed.

(** A body that does not parse makes the fetch answer 500. *)
Lemma fetch_answers_500_on_unparseable_body (event id connectorParams : any) (w : World)
  (res_statusCode : option Z) (parseError : Error) :
  member event "id" = Normal id ->
  member event "connectorParams" = Normal connectorParams ->
  nullish connectorParams = false ->
  network w (requests w) = response res_statusCode (invalid parseError) ->
  fst (handler event w)
  = Normal (failure "Failed to fetch Cloudflare data"
              (mkError ("Failed to parse response: " ++ message parseError))
              (clock w (S (clock_reads w)))).
Proof.
  intros Hid Hparams Hnull Hnet.
  unfold handler, try_catch, bind, lift, makeCloudflareRequest, bind, https_request.
  rewrite Hid, Hparams.
  destruct (member_defined connectorParams "exchange_id" Hnull) as [x ->].
  destruct (member_defined connectorParams "ticker_symbol" Hnull) as [y ->].
  rewrite Hnet. reflexivity.
Qed.

(** A request that fails makes the fetch answer 500. *)
Lemma fetch_answers_500_on_request_error (event id connectorParams : any) (w : World)
  (error : Error) :
  member event "id" = Normal id ->
  member event "connectorParams" = Normal connectorParams ->
  nullish connectorParams = false ->
  network w (requests w) = request_error error ->
  fst (handler event w)
  = Normal (failure "Failed to fetch Cloudflare data"
              (mkError ("Request failed: " ++ message error))
              (clock w (S (clock_reads w)))).
Proof.
  intros Hid Hparams Hnull Hnet.
  unfold handler, try_catch, bind, lift, makeCloudflareRequest, bind, https_request.
  rewrite Hid, Hparams.
  destruct (member_defined connectorParams "exchange_id" Hnull) as [x ->].
  destruct (member_defined connectorParams "ticker_symbol" Hnull) as [y ->].
  rewrite Hnet. reflexivity.
Qed.

End Fetch.

(** ** The conversion, run *)

Section Worked.
Import types prepareDataToFiles Examples.
#[local] Existing Instance integer_engine.

(** C4: the example of the specification. *)
Theorem convertToCSV_example (orgId : string) (connectorParams : any) (timestamp : string) :
  convertToCSV (mkCloudflareData orgId connectorParams nested timestamp)
  = Normal ("a.b,a.c,d" ++ newline ++ "1,2,3").
Proof. reflexivity. Qed.

(** C3 does not hold for every array-free payload: a comma in a value
    adds a field to the data line, a dot in a name makes the lookup miss
    the value, which is printed as the empty string, and a line feed in
    a name breaks the header line in two, so that the text has three
    lines and the first has fewer fields than the second. *)
Lemma convertToCSV_breaks_the_table :
  (convertToCSV (fetch "155" comma_in_value) = Normal ("a" ++ newline ++ "x,y") /\
   List.length (split comma "a") = 1 /\
   List.length (split comma "x,y") = 2) /\
  (leaves dot_in_name = [(["a.b"], JNumber 1%Z)] /\
   convertToCSV (fetch "155" dot_in_name) = Normal ("a.b" ++ newline ++ "")) /\
  (convertToCSV (fetch "155" line_feed_in_name)
   = Normal ("a" ++ newline ++ "b,c" ++ newline ++ "1,2") /\
   split line_feed ("a" ++ newline ++ "b,c" ++ newline ++ "1,2") = ["a"; "b,c"; "1,2"] /\
   List.length (split comma "a") = 1 /\
   List.length (split comma "b,c") = 2).
Proof. repeat split. Qed.

(** Below an empty name at the root the columns lose that name, and the
    lookup misses their values. *)
Example convertToCSV_empty_root_name :
  convertToCSV (fetch "155" empty_name) = Normal ("a" ++ newline ++ "").
Proof. reflexivity. Qed.

(** An array is walked by index. *)
Example convertToCSV_array :
  convertToCSV (fetch "155" (JObject [("a", JArray [JNumber 1%Z; JObject [("z", JNull)]])]))
  = Normal ("a.0,a.1.z" ++ newline ++ "1,").
Proof. reflexivity. Qed.

(** C7: the Cloudflare API answers 403 with a JSON error body, and the
    fetch answers 200 with that error body as [radarData]. *)
Theorem fetch_of_forbidden_answers_200 :
  network world (requests world) = response (Some 403%Z) (valid forbidden) /\
  fst (cloudflareFetchHandler.handler extracted_org world)
  = Normal (mkLambdaResponse 200
      (JObject [("orgId", JString "155");
                ("connectorParams", params);
                ("radarData", forbidden);
                ("timestamp", JString "2024-03-21T05:46:40.000Z")])).
Proof. split; reflexivity. Qed.

(** *** The theorems, applied *)

Lemma convertToCSV_table_witness :
  tabular (radarData (fetch "155" nested)) = true /\
  convertToCSV (fetch "155" nested) = Normal ("a.b,a.c,d" ++ newline ++ "1,2,3") /\
  split line_feed ("a.b,a.c,d" ++ newline ++ "1,2,3") = ["a.b,a.c,d"; "1,2,3"] /\
  nth_error (split comma "a.b,a.c,d") 1 = Some "a.c" /\
  nth_error (split comma "1,2,3") 1 = Some "2".
Proof.
  pose proof (convertToCSV_table (fetch "155" nested) eq_refl)
    as [Hcsv [Hlines [_ Hcells]]].
  destruct (Hcells 1 ["a"; "c"] (@JNumber integer_engine 2%Z) eq_refl) as [Hname Hcell].
  split; [reflexivity|]. split; [exact Hcsv|]. split; [exact Hlines|].
  split; [exact Hname|exact Hcell].
Defined.

Lemma handler_two_objects_per_entry_witness :
  s3_puts (snd (handler single_batch world))
  = batch_objects "stepfunction-poc-bucket-12345" "2024-03-21T05:46:40.000Z"
                  (batchResults single_batch).
Proof.
  destruct (handler single_batch world) as [answer w'] eqn:Hrun.
  vm_compute in Hrun. injection Hrun as <- <-.
  refine (proj1 (handler_two_objects_per_entry single_batch world _ _ _ _)).
  - vm_compute. reflexivity.
  - reflexivity.
Defined.

Lemma handler_stops_at_failed_entry_witness :
  exists error errorTime w',
    handler mixed_batch world
    = (Normal (failure "Failed to process data" error errorTime), w') /\
    s3_puts w'
    = batch_objects "stepfunction-poc-bucket-12345" "2024-03-21T05:46:40.000Z"
                    [mkBatchResult 200 (fetched (fetch "155" nested))].
Proof.
  destruct (handler_stops_at_failed_entry mixed_batch world
              [mkBatchResult 200 (fetched (fetch "155" nested))]
              (mkBatchResult 500 (fetch_failed "Failed to fetch Cloudflare data"
                                               "Request failed: ECONNRESET"
                                               "2024-03-20T10:30:01.000Z"))
              [] eq_refl)
    as [error [errorTime [w' [Hrun [_ Hall]]]]].
  - discriminate.
  - exists error, errorTime, w'. split; [exact Hrun|].
    exact (proj1 (Hall (fun _ => eq_refl) eq_refl)).
Defined.

Lemma extractOrgs_extracts_every_org_witness :
  exists orgIds,
    extractOrgs.handler from_provider world
    = (Normal (mkLambdaResponse 200 (JObject [("orgIds", JArray orgIds)])), world) /\
    List.length orgIds = 2.
Proof.
  destruct (extractOrgs_extracts_every_org from_provider providerEndpoint.response
              [providerEndpoint.org "155" "AMZN" "MSFT-458, NFLX-458, GOOGL-458";
               providerEndpoint.org "148" "MSFT" "AMZN-458, NFLX-458, GOOGL-458"]
              world eq_refl eq_refl eq_refl)
    as [orgIds [Hrun [Hlength _]]].
  exists orgIds. split; [exact Hrun|exact Hlength].
Defined.

Lemma extractOrgs_rejects_missing_orgs_witness :
  orgs_of without_orgs = Normal JUndefined /\
  exists error,
    fst (extractOrgs.handler without_orgs world)
    = Normal (failure "Failed to extract organization data" error (ticking 1)).
Proof.
  split; [reflexivity|].
  apply (extractOrgs_rejects_missing_orgs without_orgs world).
  intros orgs. discriminate.
Defined.

Lemma decryption_replaces_only_secrets_witness :
  exists decryptedData,
    decryptionHandler.handler from_provider world
    = (Normal (mkLambdaResponse 200 decryptedData), world) /\
    member decryptedData "secrets" = Normal (JString "decrypted-secret-data").
Proof.
  destruct (decryption_replaces_only_secrets from_provider providerEndpoint.response world
              eq_refl eq_refl)
    as [decryptedData [Hrun [Hsecrets _]]].
  exists decryptedData. split; [exact Hrun|exact Hsecrets].
Defined.

Lemma decryption_ignores_the_secret_witness :
  fst (decryptionHandler.handler from_provider world)
  = fst (decryptionHandler.handler from_provider_again (snd (handler single_batch world))).
Proof.
  refine (proj1 (decryption_ignores_the_secret from_provider from_provider_again
                   (entries providerEndpoint.response) (JString "another secret")
                   world (snd (handler single_batch world)) eq_refl eq_refl eq_refl)).
Defined.

End Worked.

(** * Further properties of the handlers *)

(** ** prepareDataToFiles: the whole batch *)

Section WholeBatch.
Context `{E : Engine}.
Import types prepareDataToFiles.

(** A turn that ends normally was over a writable entry. *)
Lemma process_normal_writable (timestamp : string) (index : nat) (result : BatchResult)
  (count count' : nat) (w w' : World) :
  process timestamp index result count w = (Normal count', w') ->
  writable result = true.
Proof.
  unfold process, writable.
  destruct (Z.eqb (statusCode result) 200); simpl; [|discriminate].
  destruct (body result) as [data|]; [|discriminate].
  unfold bind, lift, member.
  destruct (nullish (connectorParams data)); [discriminate|]. simpl.
  destruct (own_property (connectorParams data) "exchange_id");
    destruct (own_property (connectorParams data) "ticker_symbol");
    unfold the_BUCKET_NAME, s3Client_send;
    destruct (s3_rejects w (s3_commands w)); simpl; try discriminate;
    destruct (convertToCSV data); simpl; try discriminate; reflexivity.
Qed.

Lemma for_of_normal_writable (timestamp : string) (results : list BatchResult) :
  forall (index count count' : nat) (w w' : World),
    for_of timestamp index results count w = (Normal count', w') ->
    forallb writable results = true.
Proof.
  induction results as [|result rest IH]; intros index count count' w w' Hrun.
  - reflexivity.
  - simpl in Hrun. unfold bind in Hrun at 1.
    destruct (process timestamp index result count w) as [[count1|e] w1] eqn:Hturn;
      [|discriminate].
    simpl. rewrite (process_normal_writable _ _ _ _ _ _ _ Hturn).
    exact (IH _ _ _ _ _ Hrun).
Qed.

(** With an S3 that accepts every command the loop gets through writable
    entries, two commands for each. *)
Lemma for_of_writable (timestamp : string) (results : list BatchResult) :
  forallb writable results = true ->
  forall (index count : nat) (w : World),
    (forall n, s3_rejects w n = None) ->
    exists w',
      for_of timestamp index results count w = (Normal (count + List.length results), w') /\
      s3_puts w' = (s3_puts w ++ batch_objects (BUCKET_NAME w) timestamp results)%list /\
      s3_commands w' = s3_commands w + 2 * List.length results /\
      s3_rejects w' = s3_rejects w /\
      same_setting w w'.
Proof.
  induction results as [|result rest IH]; intros Hall index count w Haccepts.
  - exists w. simpl. rewrite app_nil_r, !Nat.add_0_r. repeat split.
  - simpl in Hall. apply andb_prop in Hall as [Hresult Hrest].
    destruct (process_writes timestamp index result count w Haccepts Hresult)
      as [w1 [Hturn [Hputs [_ [Hrejects Hsame]]]]].
    assert (Hcommands : s3_commands w1 = s3_commands w + 2).
    { unfold writable in Hresult. apply andb_prop in Hresult as [Hok Hbody].
      unfold process in Hturn. rewrite Hok in Hturn. cbn [negb] in Hturn.
      destruct (body result) as [data|]; [|discriminate].
      apply andb_prop in Hbody as [Hparams Hcsv]. apply negb_true_iff in Hparams.
      unfold bind, lift in Hturn.
      destruct (member_defined (connectorParams data) "exchange_id" Hparams) as [x Hx].
      destruct (member_defined (connectorParams data) "ticker_symbol" Hparams) as [y Hy].
      rewrite Hx, Hy in Hturn.
      unfold the_BUCKET_NAME, s3Client_send, ret in Hturn.
      rewrite (Haccepts (s3_commands w)) in Hturn. simpl in Hturn.
      destruct (convertToCSV data); [|discriminate]. simpl in Hturn.
      rewrite (Haccepts (S (s3_commands w))) in Hturn. simpl in Hturn.
      injection Hturn as <-. simpl. lia. }
    assert (Haccepts1 : forall n, s3_rejects w1 n = None).
    { intros n. rewrite Hrejects. apply Haccepts. }
    destruct (IH Hrest (S index) (count + 1) w1 Haccepts1)
      as [w' [Hrun [Hputs' [Hcommands' [Hrejects' Hsame']]]]].
    pose proof Hsame as [_ [_ Hbucket]]. rewrite Hbucket in Hputs'.
    exists w'. split; [|split; [|split; [|split]]].
    + simpl for_of. unfold bind at 1. rewrite Hturn, Hrun. f_equal. f_equal. simpl. lia.
    + rewrite Hputs', Hputs. unfold batch_objects. simpl flat_map. now rewrite <- app_assoc.
    + rewrite Hcommands', Hcommands. simpl. lia.
    + congruence.
    + now apply (same_setting_trans _ _ _ Hsame Hsame').
Qed.

(** X1: with an S3 that accepts every command, the invocation answers
    200 exactly when every entry of the batch is writable: has status 200,
    a body with [connectorParams] that can be read, and a payload that
    converts. An empty batch is answered 200. *)
Theorem handler_answers_200_iff_writable (event : BatchResults) (w : World)
  (answer : LambdaResponse) (w' : World) :
  (forall n, s3_rejects w n = None) ->
  handler event w = (Normal answer, w') ->
  (types.statusCode answer = 200%Z <-> forallb writable (batchResults event) = true).
Proof.
  intros Haccepts. rewrite handler_unfold. intros Hrun. split.
  - intros Hok.
    destruct (for_of (start_of w) 0 (batchResults event) 0 (started w))
      as [[n|e] w1] eqn:Hloop.
    + exact (for_of_normal_writable _ _ _ _ _ _ _ Hloop).
    + injection Hrun as <- _. discriminate.
  - intros Hall.
    destruct (for_of_writable (start_of w) (batchResults event) Hall 0 0 (started w) Haccepts)
      as [w1 [Hloop _]].
    rewrite Hloop in Hrun. injection Hrun as <- _. reflexivity.
Qed.

(** X2: an invocation that answers 200 has read the clock twice, at its
    start and after the loop, and its answer reports the name of the
    bucket, the number of entries of the batch as [processedCount], the
    difference of the two readings as [processingTimeMs], and the two
    readings as [startTime] and [endTime]. *)
Theorem handler_summary (event : BatchResults) (w : World)
  (answer : LambdaResponse) (w' : World) :
  handler event w = (Normal answer, w') ->
  types.statusCode answer = 200%Z ->
  types.body answer
  = JObject [("message", JString "Data processing completed");
             ("bucketName", JString (BUCKET_NAME w));
             ("processedCount",
              JNumber (Number_of_Z (Z.of_nat (List.length (batchResults event)))));
             ("processingTimeMs",
              JNumber (Number_of_Z (getTime (clock w (S (clock_reads w)))
                                    - getTime (clock w (clock_reads w)))));
             ("startTime", JString (toISOString (clock w (clock_reads w))));
             ("endTime", JString (toISOString (clock w (S (clock_reads w)))))] /\
  clock_reads w' = clock_reads w + 2.
Proof.
  rewrite handler_unfold. intros Hrun Hok.
  destruct (for_of (start_of w) 0 (batchResults event) 0 (started w))
    as [[n|e] w1] eqn:Hloop.
  - destruct (for_of_completes _ _ _ _ _ _ _ Hloop) as [_ [_ [-> [Hclock [Hreads Hbucket]]]]].
    injection Hrun as <- <-. simpl in *. rewrite Hclock, Hreads, Hbucket.
    split; [reflexivity|lia].
  - injection Hrun as <- _. discriminate.
Qed.

End WholeBatch.

(** ** Every handler answers *)

Section Answering.
Context `{E : Engine}.
Import types.

Lemma answers_200_ret (b : any) : answers_200 (ret (mkLambdaResponse 200 b)).
Proof. intros w answer w' H. injection H as <- _. reflexivity. Qed.

Lemma answers_200_bind {A : Type} (m : Lambda A) (k : A -> Lambda LambdaResponse) :
  (forall a, answers_200 (k a)) -> answers_200 (bind m k).
Proof.
  intros Hk w answer w' H. unfold bind in H.
  destruct (m w) as [[a|e] w1]; [|discriminate]. exact (Hk a _ _ _ H).
Qed.

Lemma always_answers_try_catch (m : Lambda LambdaResponse)
  (h : Error -> Lambda LambdaResponse) :
  answers_200 m -> (forall e, always_answers (h e)) -> always_answers (try_catch m h).
Proof.
  intros Hm Hh w. unfold try_catch.
  destruct (m w) as [[answer|e] w1] eqn:Hrun.
  - exists answer, w1. split; [reflexivity|]. left. exact (Hm _ _ _ Hrun).
  - exact (Hh e w1).
Qed.

Lemma always_answers_failure (what : string) (e : Error) :
  always_answers (_ <- new_Date ;; now <- new_Date ;; ret (failure what e now)).
Proof. intros w. eexists. eexists. split; [reflexivity|]. now right. Qed.

(** X3: the three handlers that read nothing outside their [try] block,
    the provider endpoint, the decryption and the extraction, end by
    answering: whatever the event, be it [null] or of any other shape,
    and whatever the world, nothing is thrown out of them, and the status
    of the answer is 200 or 500. The provider endpoint always answers
    200. *)
Theorem handlers_always_answer (event : any) :
  answers_200 (providerEndpoint.handler event) /\
  always_answers (providerEndpoint.handler event) /\
  always_answers (decryptionHandler.handler event) /\
  always_answers (extractOrgs.handler event).
Proof.
  split; [|split; [|split]].
  - intros w answer w' H. injection H as <- _. reflexivity.
  - intros w. eexists. eexists. split; [reflexivity|]. now left.
  - apply always_answers_try_catch; [|intros e; apply always_answers_failure].
    repeat (apply answers_200_bind; intros ?). apply answers_200_ret.
  - apply always_answers_try_catch; [|intros e; apply always_answers_failure].
    repeat (apply answers_200_bind; intros ?). apply answers_200_ret.
Qed.

(** X25: on an event of its declared type, a [BatchResults] with its
    array of entries, the preparation of the files ends by answering 200
    or 500, whatever the entries and the world: what is thrown in the
    loop, by the check of a status, by a read of [connectorParams], by a
    command that S3 rejects or by the conversion, is caught. An event
    without [batchResults] is no [BatchResults]: the read of
    [event.batchResults.length] for the first log line comes before the
    [try], and what it throws there leaves the handler; this statement
    does not cover it. *)
Theorem prepareDataToFiles_answers_typed_events (batch : prepareDataToFiles.BatchResults) :
  always_answers (prepareDataToFiles.handler batch).
Proof.
  intros w. rewrite handler_unfold.
  destruct (prepareDataToFiles.for_of (start_of w) 0
              (prepareDataToFiles.batchResults batch) 0 (started w)) as [[n|e] w1];
    eexists; eexists; (split; [reflexivity|]); [now left|now right].
Qed.

(** X26: when its request ends, by an [error] of the request or by the
    [end] of a response, which is all that a [World] holds, the fetch
    ends by answering 200 or 500, whatever the event: the reads of the
    event, the error of the request, the text that does not parse are all
    within the [try]. A response that never ends leaves the promise of
    the request pending; that course is no [exchange] and this statement
    does not cover it. *)
Theorem fetch_answers_when_request_ends (event : any) :
  always_answers (cloudflareFetchHandler.handler event).
Proof.
  apply always_answers_try_catch; [|intros e; apply always_answers_failure].
  repeat (apply answers_200_bind; intros ?). apply answers_200_ret.
Qed.

End Answering.

(** ** prepareDataToFiles: what is sent *)

Section Sending.
Context `{E : Engine}.
Import types prepareDataToFiles.

(** What a turn of the loop leaves behind. When it ends normally its
    entry is writable and both objects of the entry are put, with two
    commands; when it throws, nothing is put, or the JSON document of its
    entry alone, and at most two commands were sent. *)
Lemma process_turn (timestamp : string) (index : nat) (result : BatchResult)
  (count : nat) (w : World) :
  match process timestamp index result count w with
  | (Normal count', w') =>
      writable result = true /\
      count' = count + 1 /\
      List.length (objects_of (BUCKET_NAME w) timestamp result) = 2 /\
      s3_puts w' = (s3_puts w ++ objects_of (BUCKET_NAME w) timestamp result)%list /\
      s3_commands w' = s3_commands w + 2 /\
      same_setting w w'
  | (Throw _, w') =>
      (s3_puts w' = s3_puts w \/
       exists data,
         statusCode result = 200%Z /\ body result = fetched data /\
         s3_puts w' = (s3_puts w ++ [json_object (BUCKET_NAME w) timestamp data])%list) /\
      s3_commands w <= s3_commands w' /\
      s3_commands w' <= s3_commands w + 2 /\
      same_setting w w'
  end.
Proof.
  unfold process, writable, objects_of.
  destruct (Z.eqb (statusCode result) 200) eqn:Hok; simpl.
  2:{ repeat split; try lia; auto. }
  apply Z.eqb_eq in Hok.
  destruct (body result) as [data|] eqn:Hbody.
  2:{ simpl. repeat split; try lia; auto. }
  unfold bind, lift.
  destruct (nullish (connectorParams data)) eqn:Hparams.
  { rewrite (member_nullish _ "exchange_id" Hparams). unfold TypeError.
    repeat split; try lia; auto. }
  destruct (member_defined (connectorParams data) "exchange_id" Hparams) as [x ->].
  destruct (member_defined (connectorParams data) "ticker_symbol" Hparams) as [y ->].
  unfold the_BUCKET_NAME, s3Client_send, ret.
  destruct (s3_rejects w (s3_commands w)); simpl.
  { repeat split; try lia; auto. }
  destruct (convertToCSV data) as [csv|] eqn:Hcsv; simpl.
  2:{ repeat split; try lia. right. exists data. auto. }
  destruct (s3_rejects w (S (s3_commands w))); simpl.
  { repeat split; try lia. right. exists data. auto. }
  repeat split; try lia. now rewrite <- app_assoc.
Qed.

Lemma for_of_cons (timestamp : string) (result : BatchResult) (rest : list BatchResult)
  (index count : nat) (w : World) :
  for_of timestamp index (result :: rest) count w
  = match process timestamp index result count w with
    | (Normal count', w') => for_of timestamp (S index) rest count' w'
    | (Throw e, w') => (Throw e, w')
    end.
Proof. reflexivity. Qed.

(** The trace of the loop: it gets through the first [k] entries of the
    list, which are writable and have both their objects put, in order;
    when it throws, it does so at the entry after them, of which at most
    the JSON document is put. *)
Lemma for_of_trace (timestamp : string) (results : list BatchResult) :
  forall (index count : nat) (w : World),
  exists k partial,
    k <= List.length results /\
    forallb writable (firstn k results) = true /\
    List.length (batch_objects (BUCKET_NAME w) timestamp (firstn k results)) = 2 * k /\
    s3_puts (snd (for_of timestamp index results count w))
    = (s3_puts w ++ batch_objects (BUCKET_NAME w) timestamp (firstn k results)
                 ++ partial)%list /\
    (partial = [] \/
     exists result data,
       nth_error results k = Some result /\
       statusCode result = 200%Z /\ body result = fetched data /\
       partial = [json_object (BUCKET_NAME w) timestamp data]) /\
    s3_commands w + 2 * k <= s3_commands (snd (for_of timestamp index results count w)) /\
    s3_commands (snd (for_of timestamp index results count w)) <= s3_commands w + 2 * k + 2 /\
    match fst (for_of timestamp index results count w) with
    | Normal count' =>
        k = List.length results /\ partial = [] /\ count' = count + k /\
        s3_commands (snd (for_of timestamp index results count w)) = s3_commands w + 2 * k
    | Throw _ => k < List.length results
    end /\
    same_setting w (snd (for_of timestamp index results count w)).
Proof.
  induction results as [|result rest IH]; intros index count w.
  - exists 0, []. simpl. rewrite app_nil_r. repeat split; try lia. now left.
  - rewrite for_of_cons.
    pose proof (process_turn timestamp index result count w) as Hturn.
    destruct (process timestamp index result count w) as [[count1|e] w1].
    + destruct Hturn as [Hwritable [-> [Htwo [Hputs [Hcommands Hsame]]]]].
      destruct (IH (S index) (count + 1) w1)
        as [k [partial [Hk [Hall [Hlength [Hputs' [Hpartial [Hlow [Hhigh [Hend Hsame']]]]]]]]]].
      pose proof Hsame as [_ [_ Hname]]. rewrite Hname in *.
      exists (S k), partial.
      split; [simpl; lia|]. split; [simpl; now rewrite Hwritable|].
      split; [|split; [|split; [|split; [|split; [|split]]]]].
      * simpl firstn. unfold batch_objects in *. simpl flat_map.
        rewrite length_app, Hlength, Htwo. lia.
      * rewrite Hputs', Hputs. simpl firstn. unfold batch_objects. simpl flat_map.
        now rewrite <- !app_assoc.
      * exact Hpartial.
      * lia.
      * lia.
      * destruct (fst (for_of timestamp (S index) rest (count + 1) w1)).
        -- destruct Hend as [Hk' [Hp' [Hc' Heq]]]. simpl. repeat split; try lia; auto.
        -- simpl. lia.
      * exact (same_setting_trans _ _ _ Hsame Hsame').
    + destruct Hturn as [Hputs [Hlow [Hhigh Hsame]]]. simpl fst. simpl snd.
      pose proof Hsame as [Hclock [Hreads Hname]].
      destruct Hputs as [Hputs|[data [Hok [Hbody Hputs]]]].
      * exists 0, []. simpl. rewrite app_nil_r.
        repeat split; try lia; try assumption. now left.
      * exists 0, [json_object (BUCKET_NAME w) timestamp data]. simpl.
        repeat split; try lia; try assumption.
        right. exists result, data. auto.
Qed.

(** X4: whatever the batch and whatever happens, what an invocation gets
    S3 to carry out follows the batch, entry by entry: for some number
    [k] of entries at the head of the batch, all of them writable, the
    JSON document and then the CSV text of each, in the order of the
    batch, and after them at most the JSON document of the next entry,
    the one at which the loop threw. Nothing else is put, nothing is put
    for a later entry, and the commands sent, the rejected one counted,
    are the two of each of the [k] entries and at most two more. *)
Theorem handler_writes_in_batch_order (event : BatchResults) (w : World) :
  exists k partial,
    k <= List.length (batchResults event) /\
    forallb writable (firstn k (batchResults event)) = true /\
    List.length (batch_objects (BUCKET_NAME w) (start_of w) (firstn k (batchResults event)))
    = 2 * k /\
    s3_puts (snd (handler event w))
    = (s3_puts w
       ++ batch_objects (BUCKET_NAME w) (start_of w) (firstn k (batchResults event))
       ++ partial)%list /\
    (partial = [] \/
     exists result data,
       nth_error (batchResults event) k = Some result /\
       statusCode result = 200%Z /\ body result = fetched data /\
       partial = [json_object (BUCKET_NAME w) (start_of w) data]) /\
    s3_commands w + 2 * k <= s3_commands (snd (handler event w)) /\
    s3_commands (snd (handler event w)) <= s3_commands w + 2 * k + 2.
Proof.
  rewrite handler_unfold.
  destruct (for_of_trace (start_of w) (batchResults event) 0 0 (started w))
    as [k [partial [Hk [Hall [Hlength [Hputs [Hpartial [Hlow [Hhigh _]]]]]]]]].
  exists k, partial.
  destruct (for_of (start_of w) 0 (batchResults event) 0 (started w)) as [[n|e] w1];
    simpl in *; repeat split; assumption.
Qed.



(** A turn of the loop for a writable entry, when S3 accepts its two
    commands. *)
Lemma process_accepted (timestamp : string) (index : nat) (result : BatchResult)
  (count : nat) (w : World) :
  writable result = true ->
  s3_rejects w (s3_commands w) = None ->
  s3_rejects w (S (s3_commands w)) = None ->
  exists w',
    process timestamp index result count w = (Normal (count + 1), w') /\
    s3_puts w' = (s3_puts w ++ objects_of (BUCKET_NAME w) timestamp result)%list /\
    s3_commands w' = s3_commands w + 2 /\
    s3_rejects w' = s3_rejects w /\
    same_setting w w'.
Proof.
  intros Hwritable Hfirst Hsecond. unfold writable in Hwritable.
  apply andb_prop in Hwritable as [Hok Hbody].
  unfold process, objects_of. rewrite Hok. cbn [negb].
  destruct (body result) as [data|] eqn:Hdata; [|discriminate].
  apply andb_prop in Hbody as [Hparams Hcsv]. apply negb_true_iff in Hparams.
  unfold bind, lift.
  destruct (member_defined (connectorParams data) "exchange_id" Hparams) as [x ->].
  destruct (member_defined (connectorParams data) "ticker_symbol" Hparams) as [y ->].
  unfold the_BUCKET_NAME, s3Client_send, ret.
  rewrite Hfirst. simpl.
  destruct (convertToCSV data) as [csv|]; [|discriminate]. simpl.
  rewrite Hsecond. simpl.
  eexists. split; [reflexivity|]. simpl.
  repeat split; [now rewrite <- app_assoc|lia].
Qed.

(** The loop gets through the writable entries at the head of a batch
    when S3 accepts the two commands of each of them. *)
Lemma for_of_through_writable (timestamp : string) (before rest : list BatchResult) :
  forall (index count : nat) (w : World),
    forallb writable before = true ->
    (forall n, n < 2 * List.length before -> s3_rejects w (s3_commands w + n) = None) ->
    exists w1,
      for_of timestamp index (before ++ rest) count w
      = for_of timestamp (index + List.length before) rest (count + List.length before) w1 /\
      s3_puts w1 = (s3_puts w ++ batch_objects (BUCKET_NAME w) timestamp before)%list /\
      s3_commands w1 = s3_commands w + 2 * List.length before /\
      s3_rejects w1 = s3_rejects w /\
      same_setting w w1.
Proof.
  induction before as [|result more IH]; intros index count w Hall Haccepts.
  - exists w. simpl. rewrite app_nil_r, !Nat.add_0_r. repeat split.
  - simpl in Hall. apply andb_prop in Hall as [Hresult Hmore].
    destruct (process_accepted timestamp index result count w Hresult)
      as [w0 [Hturn [Hputs [Hcommands [Hrejects Hsame]]]]].
    { rewrite <- (Nat.add_0_r (s3_commands w)). apply Haccepts. simpl. lia. }
    { replace (S (s3_commands w)) with (s3_commands w + 1) by lia.
      apply Haccepts. simpl. lia. }
    destruct (IH (S index) (count + 1) w0 Hmore)
      as [w1 [Hrun [Hputs1 [Hcommands1 [Hrejects1 Hsame1]]]]].
    { intros n Hn. rewrite Hrejects, Hcommands.
      replace (s3_commands w + 2 + n) with (s3_commands w + (2 + n)) by lia.
      apply Haccepts. simpl List.length. lia. }
    pose proof Hsame as [_ [_ Hname]]. rewrite Hname in Hputs1.
    exists w1. split; [|split; [|split; [|split]]].
    + simpl app. rewrite for_of_cons, Hturn, Hrun. simpl List.length.
      f_equal; lia.
    + rewrite Hputs1, Hputs. unfold batch_objects. simpl flat_map.
      now rewrite <- app_assoc.
    + rewrite Hcommands1, Hcommands. simpl List.length. lia.
    + congruence.
    + exact (same_setting_trans _ _ _ Hsame Hsame1).
Qed.

(** X6: the first command that S3 rejects ends the invocation, wherever
    in the batch it falls: the invocation answers 500 with the message of
    the rejection and sends nothing after the rejected command. With
    writable entries before the entry whose command is rejected, and
    their commands accepted, the objects of those entries are put; when
    the rejected command is the first of its entry nothing of that entry
    is put, and when it is the second, the JSON document of the entry is
    there without its CSV text. Nothing of a later entry is put. *)
Theorem handler_stops_at_rejected_command (event : BatchResults) (w : World)
  (before : list BatchResult) (data : CloudflareData) (after : list BatchResult)
  (e : Error) :
  batchResults event = (before ++ mkBatchResult 200 (fetched data) :: after)%list ->
  forallb writable before = true ->
  nullish (connectorParams data) = false ->
  (forall n, n < 2 * List.length before -> s3_rejects w (s3_commands w + n) = None) ->
  (s3_rejects w (s3_commands w + 2 * List.length before) = Some e ->
   fst (handler event w)
   = Normal (failure "Failed to process data" e (clock w (S (clock_reads w)))) /\
   s3_puts (snd (handler event w))
   = (s3_puts w ++ batch_objects (BUCKET_NAME w) (start_of w) before)%list /\
   s3_commands (snd (handler event w)) = s3_commands w + 2 * List.length before + 1) /\
  (s3_rejects w (s3_commands w + 2 * List.length before) = None ->
   s3_rejects w (s3_commands w + 2 * List.length before + 1) = Some e ->
   forall csv, convertToCSV data = Normal csv ->
   fst (handler event w)
   = Normal (failure "Failed to process data" e (clock w (S (clock_reads w)))) /\
   s3_puts (snd (handler event w))
   = (s3_puts w ++ batch_objects (BUCKET_NAME w) (start_of w) before
                ++ [json_object (BUCKET_NAME w) (start_of w) data])%list /\
   s3_commands (snd (handler event w)) = s3_commands w + 2 * List.length before + 2).
Proof.
  intros Hbatch Hbefore Hparams Haccepts.
  rewrite handler_unfold, Hbatch.
  destruct (for_of_through_writable (start_of w) before
              (mkBatchResult 200 (fetched data) :: after) 0 0 (started w) Hbefore Haccepts)
    as [w1 [Hrun [Hputs [Hcommands [Hrejects [Hclock [Hreads Hname]]]]]]].
  change (s3_commands (started w)) with (s3_commands w) in Hcommands.
  remember (s3_commands w + 2 * List.length before) as first eqn:Hfirst.
  simpl in Hrejects, Hputs, Hclock, Hreads, Hname.
  rewrite Hrun. rewrite for_of_cons. unfold process. simpl.
  unfold bind, lift.
  destruct (member_defined (connectorParams data) "exchange_id" Hparams) as [x ->].
  destruct (member_defined (connectorParams data) "ticker_symbol" Hparams) as [y ->].
  unfold the_BUCKET_NAME, s3Client_send, ret. cbv beta.
  rewrite Hrejects, Hcommands. split.
  - intros ->. simpl. rewrite ?Hclock, ?Hreads, ?Hputs, ?Hname, ?Hcommands.
    repeat split. lia.
  - intros -> Hsecond csv ->. rewrite Nat.add_1_r in Hsecond. simpl.
    rewrite ?Hrejects, ?Hcommands, Hsecond. simpl.
    rewrite ?Hclock, ?Hreads, ?Hputs, ?Hname, ?Hcommands.
    repeat split; [now rewrite <- app_assoc|lia].
Qed.

End Sending.

(** ** Decryption and extraction on any event *)

Section AnyEvent.
Context `{E : Engine}.
Import types.

Lemma member_property (v : any) (name : string) :
  nullish v = false -> member v name = Normal (property v name).
Proof. intros Hv. unfold member, property. rewrite Hv. now destruct (own_property v name). Qed.

Lemma member_normal (v : any) (name : string) (x : any) :
  member v name = Normal x -> nullish v = false.
Proof. unfold member. destruct (nullish v); [discriminate|reflexivity]. Qed.

(** The decryption of an event whose [orgs] can be read. *)
Lemma decryption_of_readable (event providerData orgs : any) (w : World) :
  member event "body" = Normal providerData ->
  member providerData "orgs" = Normal orgs ->
  nullish orgs = false ->
  decryptionHandler.handler event w
  = (Normal (mkLambdaResponse 200
       (JObject (decryptionHandler.define_property "secrets"
                   (JString "decrypted-secret-data") (entries providerData)))), w).
Proof.
  intros Hbody Horgs Hnull.
  pose proof (member_normal _ _ _ Horgs) as Hdata.
  unfold decryptionHandler.handler, try_catch, bind, lift, ret.
  rewrite Hbody, !(member_property providerData) by assumption.
  rewrite (member_property providerData) in Horgs by assumption.
  injection Horgs as ->.
  now rewrite (member_property orgs) by assumption.
Qed.

(** X7: the decryption answers 200 exactly when [event.body.orgs] can be
    read and is neither [null] nor [undefined]; it asks nothing else of
    the event, not even that [orgs] is an array. Otherwise it answers
    500. *)
Theorem decryption_answers_200_iff (event : any) (w : World)
  (answer : LambdaResponse) (w' : World) :
  decryptionHandler.handler event w = (Normal answer, w') ->
  (statusCode answer = 200%Z <-> orgs_readable event = true).
Proof.
  unfold orgs_readable, orgs_of.
  destruct (member event "body") as [providerData|e] eqn:Hbody; simpl.
  - destruct (member providerData "orgs") as [orgs|e] eqn:Horgs.
    + destruct (nullish orgs) eqn:Hnull; simpl.
      * unfold decryptionHandler.handler, try_catch, bind, lift, ret.
        pose proof (member_normal _ _ _ Horgs) as Hdata.
        rewrite Hbody, !(member_property providerData) by assumption.
        rewrite (member_property providerData) in Horgs by assumption.
        injection Horgs as ->.
        rewrite (member_nullish _ _ Hnull). unfold TypeError. simpl.
        intros H. injection H as <- _. split; discriminate.
      * rewrite (decryption_of_readable _ _ _ w Hbody Horgs Hnull).
        intros H. injection H as <- _. split; reflexivity.
    + unfold decryptionHandler.handler, try_catch, bind, lift, ret.
      rewrite Hbody. unfold member in *.
      destruct (nullish providerData); [|destruct (own_property providerData "orgs"); discriminate].
      simpl. intros H. injection H as <- _. split; discriminate.
  - unfold decryptionHandler.handler, try_catch, bind, lift, ret.
    rewrite Hbody. simpl. intros H. injection H as <- _. split; discriminate.
Qed.

Lemma define_property_absent (key : string) (v : any) (props : list (string * any)) :
  assoc key props = None ->
  decryptionHandler.define_property key v props = (props ++ [(key, v)])%list.
Proof.
  induction props as [|[k old] rest IH]; simpl; intros Hnone.
  - reflexivity.
  - destruct (String.eqb k key); [discriminate|]. now rewrite IH.
Qed.

(** X8: a body without a [secrets] field gets one: the decryption adds
    it after the fields of the body, which stay as they are. *)
Theorem decryption_adds_missing_secrets (event : any) (props : list (string * any))
  (orgs : any) (w : World) :
  member event "body" = Normal (JObject props) ->
  assoc "orgs" props = Some orgs ->
  nullish orgs = false ->
  assoc "secrets" props = None ->
  decryptionHandler.handler event w
  = (Normal (mkLambdaResponse 200
       (JObject (props ++ [("secrets", JString "decrypted-secret-data")])%list)), w).
Proof.
  intros Hbody Horgs Hnull Hnone.
  rewrite (decryption_of_object event props orgs w Hbody Horgs Hnull).
  now rewrite define_property_absent.
Qed.

(** X9: decrypting again changes nothing: the answer of the decryption,
    handed on as an event, is decrypted to the same answer, in any
    world. *)
Theorem decryption_twice (event : any) (props : list (string * any)) (w w' : World)
  (answer : LambdaResponse) :
  member event "body" = Normal (JObject props) ->
  decryptionHandler.handler event w = (Normal answer, w') ->
  statusCode answer = 200%Z ->
  forall w2, decryptionHandler.handler (as_event answer) w2 = (Normal answer, w2).
Proof.
  intros Hbody Hrun Hok w2.
  pose proof (proj1 (decryption_answers_200_iff _ _ _ _ Hrun) Hok) as Hreadable.
  unfold orgs_readable, orgs_of in Hreadable. rewrite Hbody in Hreadable. simpl in Hreadable.
  rewrite member_object in Hreadable.
  destruct (assoc "orgs" props) as [orgs|] eqn:Horgs; [|discriminate].
  apply negb_true_iff in Hreadable.
  rewrite (decryption_of_object event props orgs w Hbody Horgs Hreadable) in Hrun.
  injection Hrun as <- _.
  set (defined := decryptionHandler.define_property "secrets"
                    (JString "decrypted-secret-data") props).
  rewrite (decryption_of_object (as_event (mkLambdaResponse 200 (JObject defined)))
             defined orgs w2 eq_refl).
  - unfold defined. now rewrite define_twice.
  - unfold defined. rewrite assoc_define_other; [assumption|discriminate].
  - assumption.
Qed.

Lemma has_string_define_other (key name : string) (v : any) (props : list (string * any)) :
  name <> key ->
  has_string (decryptionHandler.define_property key v props) name = has_string props name.
Proof. intros Hne. unfold has_string. now rewrite assoc_define_other. Qed.

(** X10: the decryption keeps the shape of its input: the body of its
    answer to a [ProviderResponse] is a [ProviderResponse] again, so the
    extraction that follows finds what it reads. *)
Theorem decryption_keeps_the_shape (event providerData : any) (w : World) :
  member event "body" = Normal providerData ->
  is_ProviderResponse providerData = true ->
  exists decryptedData,
    decryptionHandler.handler event w = (Normal (mkLambdaResponse 200 decryptedData), w) /\
    is_ProviderResponse decryptedData = true.
Proof.
  intros Hbody Hshape.
  destruct (ProviderResponse_orgs _ Hshape) as [props [orgs [-> [Horgs Hall]]]].
  eexists. split; [exact (decryption_of_object event props (JArray orgs) w Hbody Horgs eq_refl)|].
  unfold is_ProviderResponse in *.
  rewrite !has_string_define_other by discriminate.
  rewrite !assoc_define_other by discriminate.
  unfold has_string at 5. rewrite assoc_define_same.
  repeat (apply andb_prop in Hshape as [Hshape ?]).
  rewrite Hshape, Horgs, Hall.
  repeat match goal with H : _ = true |- _ => rewrite H end.
  reflexivity.
Qed.

(** What the extraction answers when it can map over [orgs]. *)
Lemma extraction_of_array (event providerData : any) (elems : list any) (w : World) :
  member event "body" = Normal providerData ->
  member providerData "orgs" = Normal (JArray elems) ->
  extractOrgs.handler event w
  = match map_throwing extractOrgs.extract elems with
    | Normal orgIds =>
        (Normal (mkLambdaResponse 200 (JObject [("orgIds", JArray orgIds)])), w)
    | Throw e =>
        (Normal (failure "Failed to extract organization data" e
                         (clock w (S (clock_reads w)))),
         mkWorld (clock w) (S (S (clock_reads w))) (env_BUCKET_NAME w) (s3_rejects w)
                 (s3_commands w) (s3_puts w) (network w) (requests w))
    end.
Proof.
  intros Hbody Horgs.
  pose proof (member_normal _ _ _ Horgs) as Hdata.
  unfold extractOrgs.handler, try_catch, bind, lift, ret.
  rewrite Hbody, !(member_property providerData) by assumption.
  rewrite (member_property providerData) in Horgs by assumption.
  injection Horgs as ->.
  rewrite (member_property (JArray elems)) by reflexivity.
  unfold extractOrgs.call_map.
  destruct (map_throwing extractOrgs.extract elems); reflexivity.
Qed.

Lemma extract_mappable (org : any) :
  mappable org = true -> extractOrgs.extract org = Normal (extracted org).
Proof.
  unfold mappable, prints. intros Hmappable.
  apply andb_prop in Hmappable as [Hnull Hprints]. apply negb_true_iff in Hnull.
  unfold extractOrgs.extract. rewrite !(member_property org) by assumption. simpl.
  destruct (ToString (property org "orgId")); [reflexivity|discriminate].
Qed.

Lemma extract_not_mappable (org : any) :
  mappable org = false -> exists e, extractOrgs.extract org = Throw e.
Proof.
  unfold mappable, prints, extractOrgs.extract. intros Hnot.
  destruct (nullish org) eqn:Hnull.
  - rewrite (member_nullish _ _ Hnull). unfold TypeError. eexists; reflexivity.
  - rewrite !(member_property org) by assumption. simpl in *.
    destruct (ToString (property org "orgId")); [discriminate|eexists; reflexivity].
Qed.

Lemma map_extract_any (elems : list any) :
  match map_throwing extractOrgs.extract elems with
  | Normal orgIds => forallb mappable elems = true /\ orgIds = map extracted elems
  | Throw _ => forallb mappable elems = false
  end.
Proof.
  induction elems as [|org rest IH]; simpl.
  - split; reflexivity.
  - destruct (mappable org) eqn:Hmappable.
    + rewrite (extract_mappable org Hmappable). simpl.
      destruct (map_throwing extractOrgs.extract rest); simpl; [|assumption].
      destruct IH as [-> ->]. split; reflexivity.
    + destruct (extract_not_mappable org Hmappable) as [e ->]. reflexivity.
Qed.

(** Without an array to map over, the extraction answers 500. *)
Lemma extraction_without_array (event : any) (w : World) :
  (forall orgs, orgs_of event <> Normal (JArray orgs)) ->
  exists error,
    extractOrgs.handler event w
    = (Normal (failure "Failed to extract organization data" error
                       (clock w (S (clock_reads w)))),
       mkWorld (clock w) (S (S (clock_reads w))) (env_BUCKET_NAME w) (s3_rejects w)
               (s3_commands w) (s3_puts w) (network w) (requests w)).
Proof.
  intros Hnot. unfold orgs_of in Hnot.
  unfold extractOrgs.handler, try_catch, bind, lift, ret, new_Date.
  destruct (member event "body") as [providerData|e]; simpl in *;
    [|eexists; reflexivity].
  destruct (nullish providerData) eqn:Hnull.
  { rewrite (member_nullish _ "providerId" Hnull). unfold TypeError. eexists; reflexivity. }
  destruct (member_defined providerData "providerId" Hnull) as [x ->].
  destruct (member_defined providerData "providerName" Hnull) as [y ->].
  destruct (member providerData "orgs") as [orgs|e]; [|eexists; reflexivity].
  destruct (nullish orgs) eqn:Horgs.
  { rewrite (member_nullish _ "length" Horgs). unfold TypeError. eexists; reflexivity. }
  destruct (member_defined orgs "length" Horgs) as [n ->].
  destruct orgs; try discriminate; unfold extractOrgs.call_map, TypeError;
    try (eexists; reflexivity).
  exfalso. now apply (Hnot elems).
Qed.

(** X11: the extraction answers 200 exactly when [event.body.orgs] is an
    array each of whose elements is neither [null] nor [undefined] and
    has an [orgId] that the log line can print: any value but an object
    with an own property named [toString], or an array that holds one.
    An empty array will do. Otherwise it answers 500. *)
Theorem extraction_answers_200_iff (event : any) (w : World)
  (answer : LambdaResponse) (w' : World) :
  extractOrgs.handler event w = (Normal answer, w') ->
  (statusCode answer = 200%Z <-> extractable event = true).
Proof.
  intros Hrun. unfold extractable.
  destruct (orgs_of event) as [orgs|e] eqn:Horgs.
  - destruct orgs as [| | | | | |elems];
      try (destruct (extraction_without_array event w) as [err Herr];
           [rewrite Horgs; intros ? ?; discriminate|];
           rewrite Hrun in Herr; injection Herr as -> _;
           split; discriminate).
    unfold orgs_of in Horgs.
    destruct (member event "body") as [providerData|] eqn:Hbody; [|discriminate].
    simpl in Horgs. rewrite (extraction_of_array _ _ _ w Hbody Horgs) in Hrun.
    pose proof (map_extract_any elems) as Hmap.
    destruct (map_throwing extractOrgs.extract elems).
    + destruct Hmap as [-> _]. injection Hrun as <- _. split; reflexivity.
    + rewrite Hmap. injection Hrun as <- _. split; discriminate.
  - destruct (extraction_without_array event w) as [err Herr];
      [rewrite Horgs; intros ? ?; discriminate|].
    rewrite Hrun in Herr. injection Herr as -> _. split; discriminate.
Qed.

End AnyEvent.

(** ** From stage to stage *)

Section StageToStage.
Context `{E : Engine}.
Import types.

(** X12: all that the extraction asks of the elements it maps over is
    that its log line can print their [orgId]. For every array of
    elements that are neither [null] nor [undefined] and whose [orgId]
    prints, it answers 200 with one entry for each element, in order: the
    [id] is the element's [orgId] and [connectorParams] its
    [connectorParams], [undefined] where the element has none. An empty
    array gives an empty [orgIds]; the world is left as it was. *)
Theorem extraction_maps_any_elements (event : any) (elems : list any) (w : World) :
  orgs_of event = Normal (JArray elems) ->
  forallb mappable elems = true ->
  extractOrgs.handler event w
  = (Normal (mkLambdaResponse 200 (JObject [("orgIds", JArray (map extracted elems))])), w).
Proof.
  intros Horgs Hall. unfold orgs_of in Horgs.
  destruct (member event "body") as [providerData|] eqn:Hbody; [|discriminate].
  simpl in Horgs. rewrite (extraction_of_array _ _ _ w Hbody Horgs).
  pose proof (map_extract_any elems) as Hmap.
  destruct (map_throwing extractOrgs.extract elems).
  - now destruct Hmap as [_ ->].
  - congruence.
Qed.

(** X13: the extraction reads nothing that the decryption writes: run on
    the answer of the decryption, handed on as an event, it does what it
    does on the event that was decrypted. *)
Theorem extraction_after_decryption (event : any) (props : list (string * any))
  (w w' : World) (answer : LambdaResponse) :
  member event "body" = Normal (JObject props) ->
  decryptionHandler.handler event w = (Normal answer, w') ->
  statusCode answer = 200%Z ->
  forall w2, extractOrgs.handler (as_event answer) w2 = extractOrgs.handler event w2.
Proof.
  intros Hbody Hrun Hok w2.
  pose proof (proj1 (decryption_answers_200_iff _ _ _ _ Hrun) Hok) as Hreadable.
  unfold orgs_readable, orgs_of in Hreadable. rewrite Hbody in Hreadable. simpl in Hreadable.
  rewrite member_object in Hreadable.
  destruct (assoc "orgs" props) as [orgs|] eqn:Horgs; [|discriminate].
  apply negb_true_iff in Hreadable.
  rewrite (decryption_of_object event props orgs w Hbody Horgs Hreadable) in Hrun.
  injection Hrun as <- _.
  unfold extractOrgs.handler, try_catch, bind, lift.
  rewrite Hbody.
  change (member (as_event _) "body")
    with (Normal (JObject (decryptionHandler.define_property "secrets"
                             (JString "decrypted-secret-data") props))).
  rewrite !member_object, !assoc_define_other by discriminate.
  reflexivity.
Qed.

Import cloudflareFetchHandler.

(** X14: the fetch sends one request or none, and never a second one. It
    sends none, and answers 500, when [event.connectorParams] cannot be
    read or is [null] or [undefined]; otherwise it sends exactly one,
    however that request ends. *)
Theorem fetch_sends_one_request_or_none (event : any) (w : World) :
  requests (snd (handler event w)) = requests w + (if fetchable event then 1 else 0) /\
  (fetchable event = false ->
   exists error,
     fst (handler event w)
     = Normal (failure "Failed to fetch Cloudflare data" error
                       (clock w (S (clock_reads w))))).
Proof.
  unfold fetchable, handler, try_catch, bind, lift, makeCloudflareRequest, bind, https_request.
  destruct (member event "id") as [id|e] eqn:Hid.
  2:{ unfold member in *. destruct (nullish event).
      - simpl. split; [lia|]. intros _. eexists; reflexivity.
      - destruct (own_property event "id"); discriminate. }
  pose proof (member_normal _ _ _ Hid) as Hevent.
  rewrite (member_property event "connectorParams" Hevent).
  destruct (nullish (property event "connectorParams")) eqn:Hnull; simpl.
  - rewrite (member_nullish _ "exchange_id" Hnull). unfold TypeError. simpl.
    split; [lia|]. intros _. eexists; reflexivity.
  - destruct (member_defined (property event "connectorParams") "exchange_id" Hnull) as [x ->].
    destruct (member_defined (property event "connectorParams") "ticker_symbol" Hnull)
      as [y ->].
    split; [|discriminate].
    destruct (network w (requests w)) as [error|code [v|parseError]]; simpl; try lia.
    destruct v; simpl; lia.
Qed.

(** X15: what the extraction makes of an organisation, the fetch can
    work on, and the [orgId] comes through: when the request is answered
    with a body that parses, the fetch answers 200 with the [orgId] and
    the [connectorParams] of that organisation, the parsed body as
    [radarData] and the time of its first reading of the clock. *)
Theorem fetch_of_extracted_org (org : any) (w : World)
  (res_statusCode : option Z) (parsedData : any) :
  is_org org = true ->
  network w (requests w) = response res_statusCode (valid parsedData) ->
  parsedData <> JUndefined ->
  exists extractedOrg id connectorParams,
    extractOrgs.extract org = Normal extractedOrg /\
    member org "orgId" = Normal id /\
    member org "connectorParams" = Normal connectorParams /\
    fst (handler extractedOrg w)
    = Normal (mkLambdaResponse 200
        (JObject [("orgId", id);
                  ("connectorParams", connectorParams);
                  ("radarData", parsedData);
                  ("timestamp", JString (toISOString (clock w (clock_reads w))))])).
Proof.
  intros Horg Hnet Hdata.
  destruct (org_fields _ Horg) as [id [params [Hextract [Hid Hparams]]]].
  exists (JObject [("id", id); ("connectorParams", params)]), id, params.
  repeat split; try assumption.
  apply (fetch_answers_200_on_any_status _ id params w res_statusCode parsedData);
    try assumption; try reflexivity.
  destruct org as [| | | | |props|]; try discriminate.
  unfold is_org in Horg. apply andb_prop in Horg as [_ Hp].
  rewrite member_object in Hparams.
  destruct (assoc "connectorParams" props) as [[| | | | |ps|]|]; try discriminate.
  now injection Hparams as <-.
Qed.

End StageToStage.

(** ** The conversion of payloads with arrays *)

Section Numerals.

Lemma digits_without_dot (d : Decimal.uint) :
  occurs dot (NilEmpty.string_of_uint d) = false.
Proof. induction d; simpl; auto. Qed.

Lemma digits_without_comma (d : Decimal.uint) :
  occurs comma (NilEmpty.string_of_uint d) = false.
Proof. induction d; simpl; auto. Qed.

Lemma index_key_without_dot (i : nat) : occurs dot (index_key i) = false.
Proof.
  unfold index_key, NilZero.string_of_uint.
  destruct (Nat.to_uint i) eqn:Hd; try (rewrite <- Hd; apply digits_without_dot).
  reflexivity.
Qed.

Lemma index_key_without_comma (i : nat) : occurs comma (index_key i) = false.
Proof.
  unfold index_key, NilZero.string_of_uint.
  destruct (Nat.to_uint i) eqn:Hd; try (rewrite <- Hd; apply digits_without_comma).
  reflexivity.
Qed.

Lemma index_key_read (i : nat) :
  option_map Nat.of_uint (NilZero.uint_of_string (index_key i)) = Some i.
Proof.
  unfold index_key.
  pose proof (DecimalNat.Unsigned.of_to i) as Hback.
  destruct (Nat.to_uint i) eqn:Hd;
    try (rewrite NilZero.usu by discriminate; simpl option_map; now rewrite Hback).
  simpl option_map. rewrite <- Hback. reflexivity.
Qed.

(** Different indices have different numerals. *)
Lemma index_key_inj (i j : nat) : index_key i = index_key j -> i = j.
Proof.
  intros Heq. pose proof (index_key_read i) as Hi. rewrite Heq, index_key_read in Hi.
  now injection Hi.
Qed.

Lemma index_key_not_empty (i : nat) : index_key i <> "".
Proof.
  intros Heq. pose proof (index_key_read i) as Hi. rewrite Heq in Hi. discriminate.
Qed.

End Numerals.

Section ArrayWalk.
Context `{E : Engine}.
Import types prepareDataToFiles.

Lemma flattenObject_array (elems : list any) (prefix : string) (allKeys : list string) :
  flattenObject (JArray elems) prefix allKeys
  = fold_left (visit prefix) (indexed 0 elems) allKeys.
Proof.
  cbn [flattenObject]. generalize 0. revert allKeys.
  induction elems as [|v rest IH]; intros allKeys i.
  - reflexivity.
  - cbn [indexed fold_left]. rewrite <- IH. reflexivity.
Qed.

Lemma fold_left_units (prefix : string) (s : string) :
  forall (i : nat) (allKeys : list string),
    fold_left (fun acc kv => Set_add (column prefix (fst kv)) acc) (indexed i (units s)) allKeys
    = fold_left (visit prefix) (indexed i (units s)) allKeys.
Proof.
  induction s as [|c s IH]; intros i allKeys.
  - reflexivity.
  - simpl. now rewrite IH.
Qed.

(** The walk of [flattenObject] runs over the own enumerable properties
    of the value, whatever the value is. *)
Lemma flattenObject_entries (v : any) (prefix : string) (allKeys : list string) :
  flattenObject v prefix allKeys = fold_left (visit prefix) (entries v) allKeys.
Proof.
  destruct v; try reflexivity.
  - apply fold_left_units.
  - apply flattenObject_object.
  - apply flattenObject_array.
Qed.

Lemma cells_entries (v : any) :
  is_nested v = true -> cells v = flat_map under (entries v).
Proof.
  destruct v as [| | | | |props|elems]; try discriminate; intros _.
  - induction props as [|[key x] rest IH]; [reflexivity|].
    simpl flat_map. simpl entries in IH. rewrite <- IH. reflexivity.
  - cbn [cells entries]. generalize 0.
    induction elems as [|x rest IH]; intros i; [reflexivity|].
    cbn [indexed flat_map]. rewrite <- IH. reflexivity.
Qed.

Lemma Forall_indexed (P : any -> Prop) (elems : list any) :
  Forall P elems -> forall i, Forall (fun kv => P (snd kv)) (indexed i elems).
Proof.
  induction 1 as [|x rest Hx _ IH]; intros i; simpl; constructor; auto.
Qed.

Lemma in_indexed (elems : list any) :
  forall (i : nat) (key : string) (x : any),
    In (key, x) (indexed i elems) ->
    exists j, key = index_key (i + j) /\ nth_error elems j = Some x.
Proof.
  induction elems as [|y rest IH]; intros i key x Hin; [contradiction|].
  destruct Hin as [Heq|Hin].
  - injection Heq as <- <-. exists 0. now rewrite Nat.add_0_r.
  - destruct (IH _ _ _ Hin) as [j [-> Hj]]. exists (S j).
    split; [f_equal; lia|assumption].
Qed.

Lemma indexed_NoDup (elems : list any) :
  forall i, NoDup (map fst (indexed i elems)).
Proof.
  induction elems as [|x rest IH]; intros i; simpl; constructor; [|apply IH].
  intros Hin. apply in_map_iff in Hin as [[key y] [Hkey Hin]]. simpl in Hkey.
  destruct (in_indexed _ _ _ _ Hin) as [j [-> _]].
  apply index_key_inj in Hkey. lia.
Qed.

Lemma find_index (i : nat) :
  forall (n start : nat),
    start <= i < start + n ->
    find (fun j => String.eqb (index_key j) (index_key i)) (seq start n) = Some i.
Proof.
  induction n as [|n IH]; intros start Hi; [lia|].
  simpl. destruct (String.eqb_spec (index_key start) (index_key i)) as [Heq|Hne].
  - apply index_key_inj in Heq. now subst.
  - apply IH. assert (start <> i) by congruence. lia.
Qed.

(** What a regular value gives for its own properties: distinct names
    without dot or comma, and regular values. *)
Lemma regular_entries (v : any) :
  regular v = true ->
  is_nested v = true ->
  NoDup (map fst (entries v)) /\
  Forall (fun kv => occurs dot (fst kv) = false /\ occurs comma (fst kv) = false /\
                    regular (snd kv) = true) (entries v).
Proof.
  destruct v as [| | | | |props|elems]; try discriminate; intros Hregular _.
  - simpl in Hregular. apply andb_prop in Hregular as [Hd Hall].
    split; [now apply distinct_NoDup|]. clear Hd. simpl entries.
    induction props as [|[key x] rest IH]; [constructor|].
    apply andb_prop in Hall as [Hall Hrest].
    apply andb_prop in Hall as [Hall Hx].
    apply andb_prop in Hall as [Hdot Hcomma].
    apply negb_true_iff in Hdot. apply negb_true_iff in Hcomma.
    constructor; [simpl; auto|now apply IH].
  - split; [apply indexed_NoDup|]. cbn [entries]. generalize 0.
    simpl in Hregular.
    induction elems as [|x rest IH]; intros i; [constructor|].
    apply andb_prop in Hregular as [Hx Hrest].
    simpl. constructor; [|now apply IH].
    simpl. auto using index_key_without_dot, index_key_without_comma.
Qed.

Lemma assoc_NoDup (props : list (string * any)) (key : string) (v : any) :
  NoDup (map fst props) -> In (key, v) props -> assoc key props = Some v.
Proof.
  induction props as [|[k x] rest IH]; intros Hd Hin; [contradiction|].
  simpl in Hd. inversion Hd as [|? ? Hfresh Hrest]; subst.
  simpl. destruct Hin as [Heq|Hin].
  - injection Heq as -> ->. now rewrite String.eqb_refl.
  - destruct (String.eqb_spec k key) as [->|_].
    + exfalso. apply Hfresh. apply in_map_iff. now exists (key, v).
    + now apply IH.
Qed.

(** Reading an own enumerable property by its name gives its value. *)
Lemma own_property_entries (v : any) (key : string) (x : any) :
  is_nested v = true ->
  NoDup (map fst (entries v)) ->
  In (key, x) (entries v) ->
  own_property v key = Some x.
Proof.
  destruct v as [| | | | |props|elems]; try discriminate; intros _ Hd Hin.
  - now apply assoc_NoDup.
  - simpl in Hin. destruct (in_indexed _ _ _ _ Hin) as [j [-> Hj]]. simpl in *.
    unfold index_of. rewrite find_index; [assumption|].
    split; [lia|]. apply nth_error_Some. congruence.
Qed.

Lemma in_cells (v : any) (cell : list string * any) :
  In cell (cells v) ->
  is_nested v = true /\
  exists key x, In (key, x) (entries v) /\
    ((is_nested x = false /\ cell = ([key], x)) \/
     (is_nested x = true /\ exists names, fst cell = key :: names /\
                                          In (names, snd cell) (cells x))).
Proof.
  intros Hin.
  assert (Hnested : is_nested v = true) by (destruct v; try contradiction; reflexivity).
  split; [assumption|].
  rewrite (cells_entries v Hnested), in_flat_map in Hin.
  destruct Hin as [[key x] [Hkv Hcell]].
  exists key, x. split; [assumption|].
  unfold under in Hcell. simpl in Hcell. destruct (is_nested x).
  - right. split; [reflexivity|].
    apply in_map_iff in Hcell as [[names y] [<- Hy]]. simpl. now exists names.
  - left. split; [reflexivity|]. destruct Hcell as [<-|[]]. reflexivity.
Qed.

Lemma regular_leaf (v : any) :
  regular v = true -> is_nested v = false -> occurs comma (cell_text v) = false.
Proof.
  destruct v; simpl; intros H Hn; try discriminate; try reflexivity;
    now apply negb_true_iff in H.
Qed.

(** Induction over a value through its own enumerable properties. *)
Lemma nested_ind (P : any -> Prop) :
  (forall v, is_nested v = false -> P v) ->
  (forall v, is_nested v = true -> Forall (fun kv => P (snd kv)) (entries v) -> P v) ->
  forall v, P v.
Proof.
  intros Hleaf Hnested.
  induction v as [| | | | |props IH|elems IH] using any_ind;
    try (apply Hleaf; reflexivity); apply Hnested; try reflexivity.
  - exact IH.
  - simpl. now apply Forall_indexed.
Qed.

Lemma cells_regular (v : any) :
  regular v = true ->
  forall names x, In (names, x) (cells v) ->
    names <> [] /\
    Forall (fun name => occurs dot name = false) names /\
    Forall (fun name => occurs comma name = false) names /\
    is_nested x = false /\
    occurs comma (cell_text x) = false.
Proof.
  induction v as [v Hleaf|v Hnested IH] using nested_ind; intros Hregular names x Hin.
  - destruct (in_cells _ _ Hin) as [Hn _]. congruence.
  - destruct (in_cells _ _ Hin) as [_ [key [y [Hkv Hcase]]]].
    destruct (regular_entries _ Hregular Hnested) as [_ Hall].
    rewrite Forall_forall in IH, Hall.
    destruct (Hall _ Hkv) as [Hdot [Hcomma Hy]]. simpl in Hdot, Hcomma, Hy.
    destruct Hcase as [[Hn Heq]|[Hn [rest [Heq Hrest]]]].
    + injection Heq as -> ->.
      repeat split; try discriminate; auto using regular_leaf.
    + simpl in Heq, Hrest. subst names.
      destruct (IH _ Hkv Hy _ _ Hrest) as [_ [Hd [Hc [Hx Ht]]]].
      repeat split; try discriminate; auto.
Qed.

Lemma under_NoDup (es : list (string * any)) :
  NoDup (map fst es) ->
  Forall (fun kv => NoDup (map fst (cells (snd kv)))) es ->
  NoDup (map fst (flat_map under es)).
Proof.
  induction es as [|[key x] rest IH]; intros Hd Hall; [constructor|].
  simpl in Hd. inversion Hd as [|? ? Hfresh Hrest]; subst.
  inversion Hall as [|? ? Hx Hothers]; subst. simpl in Hx.
  simpl flat_map. rewrite map_app. apply NoDup_app.
  - unfold under. simpl. destruct (is_nested x).
    + rewrite map_map. simpl. rewrite <- (map_map fst (cons key)).
      apply NoDup_map_NoDup_ForallPairs; [|assumption].
      intros a b _ _ Heq. now injection Heq.
    + simpl. constructor; [intros []|constructor].
  - now apply IH.
  - intros names Hhere Hthere. apply Hfresh.
    assert (Hhead : exists tail, names = key :: tail).
    { unfold under in Hhere. simpl in Hhere. destruct (is_nested x).
      - rewrite map_map in Hhere. simpl in Hhere.
        apply in_map_iff in Hhere as [cell [<- _]]. now exists (fst cell).
      - destruct Hhere as [<-|[]]. now exists []. }
    destruct Hhead as [tail ->].
    apply in_map_iff in Hthere as [cell [Hfst Hcell]].
    apply in_flat_map in Hcell as [[k y] [Hky Hcell]].
    apply in_map_iff. exists (k, y). split; [|assumption]. simpl.
    unfold under in Hcell. simpl in Hcell. destruct (is_nested y).
    + apply in_map_iff in Hcell as [c [<- _]]. simpl in Hfst. now injection Hfst.
    + destruct Hcell as [<-|[]]. simpl in Hfst. now injection Hfst.
Qed.

(** The names of different cells differ. *)
Lemma cells_NoDup (v : any) :
  regular v = true -> NoDup (map fst (cells v)).
Proof.
  induction v as [v Hleaf|v Hnested IH] using nested_ind; intros Hregular.
  - destruct v; try discriminate; constructor.
  - rewrite (cells_entries v Hnested).
    destruct (regular_entries _ Hregular Hnested) as [Hd Hall].
    apply under_NoDup; [assumption|].
    rewrite Forall_forall in *. intros kv Hkv.
    apply (IH _ Hkv). now destruct (Hall _ Hkv) as [_ [_ Hr]].
Qed.

(** Following the names of a cell from the root reaches the cell. *)
Lemma reduce_cell (v : any) :
  regular v = true ->
  forall names x, In (names, x) (cells v) ->
    reduce optional_get names (Val v) = Normal (Val x).
Proof.
  induction v as [v Hleaf|v Hnested IH] using nested_ind; intros Hregular names x Hin.
  - destruct (in_cells _ _ Hin) as [Hn _]. congruence.
  - destruct (in_cells _ _ Hin) as [_ [key [y [Hkv Hcase]]]].
    destruct (regular_entries _ Hregular Hnested) as [Hd Hall].
    rewrite Forall_forall in IH, Hall.
    destruct (Hall _ Hkv) as [_ [_ Hy]]. simpl in Hy.
    pose proof (own_property_entries v key y Hnested Hd Hkv) as Hown.
    assert (Hv : nullish v = false) by (destruct v; try discriminate; reflexivity).
    destruct Hcase as [[Hn Heq]|[Hn [rest [Heq Hrest]]]].
    + injection Heq as -> ->. simpl. now rewrite Hv, Hown.
    + simpl in Heq, Hrest. subst names. simpl. rewrite Hv, Hown. simpl.
      now apply (IH _ Hkv Hy).
Qed.

(** On a regular object or array the walk adds the dotted paths of the
    cells, in order. *)
Lemma flattenObject_cells (v : any) :
  forall (names : list string) (allKeys : list string),
    regular v = true ->
    is_nested v = true ->
    (names = [] -> own_names_not_empty v = true) ->
    (names <> [] -> dotted names <> "") ->
    flattenObject v (dotted names) allKeys
    = add_all (map (fun cell => dotted (names ++ fst cell)) (cells v)) allKeys.
Proof.
  induction v as [v Hleaf|v Hnested IH] using nested_ind;
    intros names allKeys Hregular Hn Htop Hdeep; [congruence|].
  rewrite flattenObject_entries, (cells_entries v Hnested).
  destruct (regular_entries _ Hregular Hnested) as [_ Hall].
  assert (Hnames : names = [] -> Forall (fun kv => fst kv <> "") (entries v)).
  { intros Hnil. specialize (Htop Hnil). unfold own_names_not_empty in Htop.
    rewrite forallb_forall in Htop. apply Forall_forall. intros kv Hin.
    specialize (Htop kv Hin). apply negb_true_iff in Htop.
    now apply String.eqb_neq. }
  clear Htop Hn Hregular Hnested. revert allKeys.
  induction (entries v) as [|[key x] rest IHrest]; intros allKeys.
  - reflexivity.
  - inversion IH as [|? ? IHx IHothers]; subst.
    inversion Hall as [|? ? [Hdot [Hcomma Hx]] Hothers]; subst.
    simpl in IHx, Hdot, Hcomma, Hx.
    simpl fold_left. simpl flat_map. rewrite map_app, add_all_app.
    rewrite IHrest; try assumption.
    2:{ intros Hnil. specialize (Hnames Hnil). now inversion Hnames. }
    f_equal. unfold visit, under. simpl fst. simpl snd.
    assert (Hcol : column (dotted names) key = dotted (names ++ [key])).
    { apply column_dotted. destruct names; [now left|right]. now apply Hdeep. }
    rewrite Hcol.
    destruct (is_nested x) eqn:Hnx.
    + rewrite IHx; [|assumption|reflexivity| |].
      * rewrite map_map. simpl. f_equal. apply map_ext. intros cell.
        now rewrite <- app_assoc.
      * intros Habs. now destruct names.
      * intros _. destruct names as [|n names].
        -- simpl. unfold dotted. simpl. specialize (Hnames eq_refl).
           inversion Hnames; subst. assumption.
        -- now apply dotted_snoc_not_empty.
    + reflexivity.
Qed.

Lemma digits_without_line_feed (d : Decimal.uint) :
  occurs line_feed (NilEmpty.string_of_uint d) = false.
Proof. induction d; simpl; auto. Qed.

Lemma index_key_without_line_feed (i : nat) : occurs line_feed (index_key i) = false.
Proof.
  unfold index_key, NilZero.string_of_uint.
  destruct (Nat.to_uint i) eqn:Hd; try (rewrite <- Hd; apply digits_without_line_feed).
  reflexivity.
Qed.

Lemma one_line_entries (v : any) :
  one_line v = true ->
  is_nested v = true ->
  Forall (fun kv => occurs line_feed (fst kv) = false /\ one_line (snd kv) = true)
         (entries v).
Proof.
  destruct v as [| | | | |props|elems]; try discriminate; intros Hline _.
  - now apply one_line_object.
  - cbn [entries]. generalize 0. simpl in Hline.
    induction elems as [|x rest IH]; intros i; [constructor|].
    apply andb_prop in Hline as [Hx Hrest].
    simpl. constructor; [|now apply IH].
    simpl. auto using index_key_without_line_feed.
Qed.

(** The names and the text of the cells of a value of one line hold no
    line feed. *)
Lemma cells_one_line (v : any) :
  one_line v = true ->
  forall names x, In (names, x) (cells v) ->
    Forall (fun name => occurs line_feed name = false) names /\
    occurs line_feed (cell_text x) = false.
Proof.
  induction v as [v Hleaf|v Hnested IH] using nested_ind; intros Hline names x Hin.
  - destruct (in_cells _ _ Hin) as [Hn _]. congruence.
  - destruct (in_cells _ _ Hin) as [_ [key [y [Hkv Hcase]]]].
    pose proof (one_line_entries _ Hline Hnested) as Hall.
    rewrite Forall_forall in IH, Hall.
    destruct (Hall _ Hkv) as [Hkey Hy]. simpl in Hkey, Hy.
    destruct Hcase as [[Hn Heq]|[Hn [rest [Heq Hrest]]]].
    + injection Heq as -> ->. split; [auto|now apply one_line_leaf].
    + simpl in Heq, Hrest. subst names.
      destruct (IH _ Hkv Hy _ _ Hrest) as [Hnames Htext]. split; auto.
Qed.

(** X16: the table of a payload with arrays. For a payload that is an
    object or an array, whose field names are distinct within their
    object, hold neither dot, comma nor line feed and are not empty at
    the root, and whose leaves print without comma and line feed, the
    text the conversion yields has exactly two lines, the header line and
    the data line of the table of its cells, an element of an array being
    named by its index. Both lines have the same number of
    comma-separated fields, and the i-th cell has its dot-joined path as
    the i-th field of the header line and its text as the i-th field of
    the data line. *)
Theorem convertToCSV_table_with_arrays (data : CloudflareData) :
  flattenable (radarData data) = true ->
  let table := cells (radarData data) in
  let header := String.concat "," (map (fun cell => dotted (fst cell)) table) in
  let row := String.concat "," (map (fun cell => cell_text (snd cell)) table) in
  convertToCSV data = Normal (header ++ newline ++ row) /\
  split line_feed (header ++ newline ++ row) = [header; row] /\
  List.length (split comma header) = List.length (split comma row) /\
  forall i names x,
    nth_error table i = Some (names, x) ->
    nth_error (split comma header) i = Some (dotted names) /\
    nth_error (split comma row) i = Some (cell_text x).
Proof.
  intros Hflat table header row.
  unfold flattenable in Hflat.
  apply andb_prop in Hflat as [Hflat Hline]. apply andb_prop in Hflat as [Hflat Hnames].
  apply andb_prop in Hflat as [Hnested Hregular].
  pose proof (cells_regular _ Hregular) as Hcells. fold table in Hcells.
  pose proof (cells_one_line _ Hline) as Hlines. fold table in Hlines.
  assert (Hheaders : flattenObject (radarData data) "" []
                     = map (fun cell => dotted (fst cell)) table).
  { change "" with (dotted []).
    rewrite flattenObject_cells; try assumption; [|auto|intros H; now elim H].
    simpl. rewrite add_all_fresh; [reflexivity|]. simpl.
    rewrite <- (map_map fst dotted).
    apply NoDup_map_NoDup_ForallPairs; [|now apply cells_NoDup].
    intros a b Ha Hb Heq.
    apply in_map_iff in Ha as [[na xa] [<- Ha]].
    apply in_map_iff in Hb as [[nb xb] [<- Hb]].
    simpl in *.
    destruct (Hcells _ _ Ha) as [Hane [Hadot _]].
    destruct (Hcells _ _ Hb) as [Hbne [Hbdot _]].
    rewrite <- (split_concat dot na), <- (split_concat dot nb) by assumption.
    unfold dotted in Heq. change (String dot "") with ".". now rewrite Heq. }
  assert (Hhead_free : Forall (fun field => occurs comma field = false)
                              (map (fun cell => dotted (fst cell)) table)).
  { apply Forall_forall. intros field Hin.
    apply in_map_iff in Hin as [[names x] [<- Hin]]. simpl.
    destruct (Hcells _ _ Hin) as [_ [_ [Hcomma _]]].
    now apply (occurs_concat comma dot). }
  assert (Hrow_free : Forall (fun field => occurs comma field = false)
                             (map (fun cell => cell_text (snd cell)) table)).
  { apply Forall_forall. intros field Hin.
    apply in_map_iff in Hin as [[names x] [<- Hin]]. simpl.
    now destruct (Hcells _ _ Hin) as [_ [_ [_ [_ Htext]]]]. }
  split; [|split; [|split]].
  2:{ apply split_lines; apply Forall_forall; intros field Hin;
        apply in_map_iff in Hin as [[names x] [<- Hin]]; simpl;
        destruct (Hlines _ _ Hin) as [Hnames' Htext].
      - now apply (occurs_concat line_feed dot).
      - assumption. }
  - unfold convertToCSV. rewrite Hheaders.
    rewrite (map_throwing_map _ _
               (fun cell => Val (if nullish (snd cell) then JString "" else snd cell))).
    + simpl. unfold join.
      rewrite (map_throwing_map _ _ (fun cell => cell_text (snd cell))).
      * reflexivity.
      * intros [names x] Hin. simpl.
        destruct (Hcells _ _ Hin) as [_ [_ [_ [Hx _]]]].
        now apply join_element_leaf.
    + intros [names x] Hin. simpl. unfold getValue.
      destruct (Hcells _ _ Hin) as [Hne [Hdot _]].
      unfold dotted. change "." with (String dot "").
      rewrite split_concat by assumption.
      rewrite (reduce_cell _ Hregular _ _ Hin). simpl.
      now destruct (nullish x).
  - unfold header, row. rewrite !split_line by assumption.
    destruct table; simpl; [reflexivity|]. now rewrite !length_map.
  - intros i names x Hnth.
    unfold header, row. rewrite !split_line by assumption.
    destruct table as [|cell rest] eqn:Ht.
    + now destruct i.
    + rewrite <- Ht in *.
      assert (Hm1 : map (fun cell => dotted (fst cell)) table <> []) by (rewrite Ht; discriminate).
      assert (Hm2 : map (fun cell => cell_text (snd cell)) table <> []) by (rewrite Ht; discriminate).
      destruct (map (fun cell => dotted (fst cell)) table) eqn:H1; [contradiction|].
      destruct (map (fun cell => cell_text (snd cell)) table) eqn:H2; [contradiction|].
      rewrite <- H1, <- H2. split.
      * now apply (nth_error_map_some (fun cell => dotted (fst cell)) _ _ _ Hnth).
      * now apply (nth_error_map_some (fun cell => cell_text (snd cell)) _ _ _ Hnth).
Qed.

Lemma Set_add_NoDup (key : string) (allKeys : list string) :
  NoDup allKeys -> NoDup (Set_add key allKeys).
Proof.
  intros Hd. unfold Set_add.
  destruct (existsb (String.eqb key) allKeys) eqn:Hex; [assumption|].
  apply NoDup_app; [assumption|repeat constructor; intros []|].
  intros k Hin [Heq|[]]. subst k.
  assert (existsb (String.eqb key) allKeys = true); [|congruence].
  apply existsb_exists. exists key. split; [assumption|apply String.eqb_refl].
Qed.

Lemma Set_add_extends (key : string) (allKeys : list string) :
  exists added, Set_add key allKeys = (allKeys ++ added)%list.
Proof.
  unfold Set_add. destruct (existsb (String.eqb key) allKeys).
  - exists []. now rewrite app_nil_r.
  - now exists [key].
Qed.

(** The walk keeps the columns it was given, in their order, and has no
    column twice. *)
Lemma flattenObject_grows (v : any) :
  forall (prefix : string) (allKeys : list string),
    NoDup allKeys ->
    NoDup (flattenObject v prefix allKeys) /\
    exists added, flattenObject v prefix allKeys = (allKeys ++ added)%list.
Proof.
  assert (Hwalk : forall (es : list (string * any)) (prefix : string),
             Forall (fun kv => is_nested (snd kv) = true ->
                       forall prefix allKeys, NoDup allKeys ->
                         NoDup (flattenObject (snd kv) prefix allKeys) /\
                         exists added,
                           flattenObject (snd kv) prefix allKeys = (allKeys ++ added)%list) es ->
             forall allKeys, NoDup allKeys ->
               NoDup (fold_left (visit prefix) es allKeys) /\
               exists added, fold_left (visit prefix) es allKeys = (allKeys ++ added)%list).
  { intros es prefix Hes. induction Hes as [|[key x] rest Hx _ IH]; intros allKeys Hd.
    - split; [assumption|]. exists []. now rewrite app_nil_r.
    - simpl fold_left. simpl in Hx.
      assert (Hstep : NoDup (visit prefix allKeys (key, x)) /\
                      exists added, visit prefix allKeys (key, x) = (allKeys ++ added)%list).
      { unfold visit. simpl. destruct (is_nested x).
        - now apply Hx.
        - split; [now apply Set_add_NoDup|apply Set_add_extends]. }
      destruct Hstep as [Hd1 [added1 Hadded1]].
      destruct (IH _ Hd1) as [Hd2 [added2 Hadded2]].
      split; [assumption|]. exists (added1 ++ added2)%list.
      now rewrite Hadded2, Hadded1, <- app_assoc. }
  induction v as [v Hleaf|v Hnested IH] using nested_ind; intros prefix allKeys Hd;
    rewrite flattenObject_entries; apply Hwalk; try assumption.
  - destruct v; try discriminate; try constructor.
    clear Hleaf. simpl. generalize 0.
    induction s as [|c s IHs]; intros i; simpl; [constructor|].
    constructor; [discriminate|apply IHs].
  - eapply Forall_impl; [|exact IH]. intros kv H _. exact H.
Qed.

(** X17: the header line never names a column twice, whatever the
    payload: its columns are distinct strings. *)
Theorem convertToCSV_headers_distinct (data : CloudflareData) :
  NoDup (flattenObject (radarData data) "" []).
Proof. apply flattenObject_grows. constructor. Qed.

End ArrayWalk.

(** ** createStateMachine: trying again *)

Section TryingAgain.
Import createStateMachine.
Variable T : Type.

Lemma attempts_operation (maxAttempts : nat) (baseDelay : Z) (remaining : nat) :
  forall (attempt : nat) (lastError : option ServiceError) (c : Calls T),
    operation (snd (attempts maxAttempts baseDelay remaining attempt lastError c))
    = operation c.
Proof.
  induction remaining as [|remaining IH]; intros attempt lastError c; simpl.
  - reflexivity.
  - destruct (operation c (made c)) as [value|error]; [reflexivity|].
    destruct (String.eqb (name error) "ResourceConflictException"); [now rewrite IH|].
    destruct (Nat.ltb attempt maxAttempts); [now rewrite IH|reflexivity].
Qed.

(** The loop from [attempt] on, when the first [k] calls are rejected and
    the next one resolves. *)
Lemma attempts_until_resolved (maxAttempts : nat) (baseDelay : Z) (value : T) (k : nat) :
  forall (remaining attempt : nat) (lastError : option ServiceError) (c : Calls T),
    attempt + remaining = S maxAttempts ->
    k < remaining ->
    (forall j, j < k -> exists error, operation c (made c + j) = rejected error) ->
    operation c (made c + k) = resolved value ->
    fst (attempts maxAttempts baseDelay remaining attempt lastError c) = returned value /\
    made (snd (attempts maxAttempts baseDelay remaining attempt lastError c))
    = made c + k + 1 /\
    List.length (waited (snd (attempts maxAttempts baseDelay remaining attempt lastError c)))
    = List.length (waited c) + k.
Proof.
  induction k as [|k IH]; intros remaining attempt lastError c Hturns Hk Hrejected Hresolved.
  - destruct remaining as [|remaining]; [lia|]. simpl.
    rewrite Nat.add_0_r in Hresolved. rewrite Hresolved. simpl. repeat split; lia.
  - destruct remaining as [|remaining]; [lia|]. simpl.
    destruct (Hrejected 0 (Nat.lt_0_succ k)) as [error Herror].
    rewrite Nat.add_0_r in Herror. rewrite Herror.
    assert (Hnext : forall d,
               fst (attempts maxAttempts baseDelay remaining (S attempt) (Some error)
                             (paused d (called c))) = returned value /\
               made (snd (attempts maxAttempts baseDelay remaining (S attempt) (Some error)
                                   (paused d (called c)))) = made c + S k + 1 /\
               List.length (waited (snd (attempts maxAttempts baseDelay remaining (S attempt)
                                                  (Some error) (paused d (called c)))))
               = List.length (waited c) + S k).
    { intros d.
      destruct (IH remaining (S attempt) (Some error) (paused d (called c)))
        as [Hvalue [Hmade Hwaited]]; try lia.
      - intros j Hj. simpl. replace (S (made c + j)) with (made c + S j) by lia.
        apply Hrejected. lia.
      - simpl. replace (S (made c + k)) with (made c + S k) by lia. exact Hresolved.
      - simpl in Hmade, Hwaited. rewrite length_app in Hwaited. simpl in Hwaited.
        repeat split; [assumption|lia|lia]. }
    destruct (String.eqb (name error) "ResourceConflictException"); [apply Hnext|].
    destruct (Nat.ltb_spec attempt maxAttempts); [apply Hnext|lia].
Qed.

(** X18: [retryWithBackoff] returns what the first call that resolves
    resolves to, when that is one of the first [maxAttempts] calls, and
    the calls before it were rejected, with whatever error. It has then
    called the operation that many times and no more, and waited once
    after each rejected call. *)
Theorem retryWithBackoff_returns_first_success (maxAttempts : nat) (baseDelay : Z)
  (c : Calls T) (k : nat) (value : T) :
  k < maxAttempts ->
  (forall j, j < k -> exists error, operation c (made c + j) = rejected error) ->
  operation c (made c + k) = resolved value ->
  fst (retryWithBackoff maxAttempts baseDelay c) = returned value /\
  made (snd (retryWithBackoff maxAttempts baseDelay c)) = made c + k + 1 /\
  List.length (waited (snd (retryWithBackoff maxAttempts baseDelay c)))
  = List.length (waited c) + k.
Proof.
  intros Hk Hrejected Hresolved. unfold retryWithBackoff.
  apply attempts_until_resolved; try assumption. lia.
Qed.

Lemma attempts_throw (maxAttempts : nat) (baseDelay : Z) (remaining : nat) :
  forall (attempt : nat) (lastError : option ServiceError) (c : Calls T)
         (thrown : option ServiceError),
    attempt + remaining = S maxAttempts ->
    fst (attempts maxAttempts baseDelay remaining attempt lastError c) = threw thrown ->
    made (snd (attempts maxAttempts baseDelay remaining attempt lastError c))
    = made c + remaining /\
    (forall j, j < remaining -> exists error, operation c (made c + j) = rejected error) /\
    match remaining with
    | 0 => thrown = lastError
    | S last => exists error,
        operation c (made c + last) = rejected error /\ thrown = Some error
    end.
Proof.
  induction remaining as [|remaining IH]; intros attempt lastError c thrown Hturns Hthrew.
  - simpl in *. injection Hthrew as <-. repeat split; [lia|intros j Hj; lia].
  - simpl in Hthrew |- *.
    destruct (operation c (made c)) as [value|error] eqn:Hcall; [discriminate|].
    assert (Hnext : forall d,
               fst (attempts maxAttempts baseDelay remaining (S attempt) (Some error)
                             (paused d (called c))) = threw thrown ->
               made (snd (attempts maxAttempts baseDelay remaining (S attempt) (Some error)
                                   (paused d (called c)))) = made c + S remaining /\
               (forall j, j < S remaining ->
                          exists error, operation c (made c + j) = rejected error) /\
               exists error',
                 operation c (made c + remaining) = rejected error' /\ thrown = Some error').
    { intros d Hd.
      destruct (IH (S attempt) (Some error) (paused d (called c)) thrown)
        as [Hmade [Hall Hlast]]; try assumption; try lia.
      simpl in Hmade, Hall. split; [lia|]. split.
      - intros [|j] Hj.
        + rewrite Nat.add_0_r. now exists error.
        + replace (made c + S j) with (S (made c + j)) by lia. apply Hall. lia.
      - destruct remaining as [|last].
        + exists error. rewrite Nat.add_0_r. split; [assumption|]. exact Hlast.
        + destruct Hlast as [error' [Hcall' ->]]. exists error'. split; [|reflexivity].
          simpl in Hcall'. replace (made c + S last) with (S (made c + last)) by lia.
          exact Hcall'. }
    destruct (String.eqb (name error) "ResourceConflictException"); [now apply Hnext|].
    destruct (Nat.ltb_spec attempt maxAttempts); [now apply Hnext|].
    assert (remaining = 0) by lia. subst remaining. simpl in *.
    injection Hthrew as <-. split; [lia|]. split.
    + intros j Hj. assert (j = 0) by lia. subst j. rewrite Nat.add_0_r. now exists error.
    + exists error. rewrite Nat.add_0_r. now split.
Qed.

(** X19: [retryWithBackoff] gives up only after [maxAttempts] calls, all
    of them rejected, and what it throws is the error of the last call.
    With [maxAttempts] at 0 it calls nothing and throws [undefined]. *)
Theorem retryWithBackoff_throws_last_error (maxAttempts : nat) (baseDelay : Z)
  (c : Calls T) (thrown : option ServiceError) :
  fst (retryWithBackoff maxAttempts baseDelay c) = threw thrown ->
  made (snd (retryWithBackoff maxAttempts baseDelay c)) = made c + maxAttempts /\
  (forall j, j < maxAttempts -> exists error, operation c (made c + j) = rejected error) /\
  match maxAttempts with
  | 0 => thrown = None
  | S last => exists error,
      operation c (made c + last) = rejected error /\ thrown = Some error
  end.
Proof.
  intros Hthrew. unfold retryWithBackoff in *.
  apply (attempts_throw maxAttempts baseDelay maxAttempts 1 None c thrown); [lia|assumption].
Qed.

Lemma attempts_bound (maxAttempts : nat) (baseDelay : Z) (remaining : nat) :
  forall (attempt : nat) (lastError : option ServiceError) (c : Calls T),
    made (snd (attempts maxAttempts baseDelay remaining attempt lastError c))
    <= made c + remaining.
Proof.
  induction remaining as [|remaining IH]; intros attempt lastError c; simpl; [lia|].
  destruct (operation c (made c)) as [value|error]; simpl; [lia|].
  destruct (String.eqb (name error) "ResourceConflictException").
  - etransitivity; [apply IH|]. simpl. lia.
  - destruct (Nat.ltb attempt maxAttempts); simpl; [|lia].
    etransitivity; [apply IH|]. simpl. lia.
Qed.

(** A conflict is waited out with twice the delay each time, also after
    the last attempt. *)
Lemma attempts_conflicts (maxAttempts : nat) (baseDelay : Z) (remaining : nat) :
  forall (attempt : nat) (lastError : option ServiceError) (c : Calls T),
    (forall j, j < remaining ->
       exists error, operation c (made c + j) = rejected error /\
                     name error = "ResourceConflictException") ->
    waited (snd (attempts maxAttempts baseDelay remaining attempt lastError c))
    = (waited c ++ map (fun turn => backoff baseDelay twofold (turn - 1))
                       (seq attempt remaining))%list.
Proof.
  induction remaining as [|remaining IH]; intros attempt lastError c Hall; simpl.
  - now rewrite app_nil_r.
  - destruct (Hall 0 (Nat.lt_0_succ _)) as [error [Hcall Hname]].
    rewrite Nat.add_0_r in Hcall. rewrite Hcall, Hname, String.eqb_refl.
    rewrite IH.
    + simpl. now rewrite <- app_assoc.
    + intros j Hj. simpl. replace (S (made c + j)) with (made c + S j) by lia.
      apply Hall. lia.
Qed.

(** X20: [retryWithBackoff] never calls the operation more than
    [maxAttempts] times; and when every call is rejected with a
    [ResourceConflictException], it waits after each of them, the last
    one too, with [baseDelay] times 1, 2, 4, ... before it throws. *)
Theorem retryWithBackoff_waits_out_conflicts (maxAttempts : nat) (baseDelay : Z)
  (c : Calls T) :
  made (snd (retryWithBackoff maxAttempts baseDelay c)) <= made c + maxAttempts /\
  ((forall j, j < maxAttempts ->
      exists error, operation c (made c + j) = rejected error /\
                    name error = "ResourceConflictException") ->
   waited (snd (retryWithBackoff maxAttempts baseDelay c))
   = (waited c ++ map (fun exponent => backoff baseDelay twofold exponent)
                      (seq 0 maxAttempts))%list).
Proof.
  split; [apply attempts_bound|].
  intros Hall. unfold retryWithBackoff. rewrite attempts_conflicts by assumption.
  f_equal. rewrite <- seq_shift, map_map. apply map_ext. intros turn.
  f_equal. lia.
Qed.

End TryingAgain.

Section Polling.
Import createStateMachine.

(** X21: [waitForLambdaFunction] answers [true] exactly when one of the
    first [maxAttempts] calls of [GetFunction] finds the function
    [Active] and every call before it resolved with another state; a
    rejected call ends the wait with [false], whatever its error. It
    never calls more than [maxAttempts] times. *)
Theorem waitForLambdaFunction_true_iff (maxAttempts : nat) (c : Calls (option string)) :
  (fst (waitForLambdaFunction maxAttempts c) = true <->
   exists k, k < maxAttempts /\
     (exists state, operation c (made c + k) = resolved state /\ is_Active state = true) /\
     forall j, j < k ->
       exists state, operation c (made c + j) = resolved state /\ is_Active state = false) /\
  made (snd (waitForLambdaFunction maxAttempts c)) <= made c + maxAttempts.
Proof.
  unfold waitForLambdaFunction. revert c.
  induction maxAttempts as [|remaining IH]; intros c; simpl.
  - split; [|lia]. split; [discriminate|]. intros [k [Hk _]]. lia.
  - destruct (operation c (made c)) as [state|error] eqn:Hcall.
    + destruct (is_Active state) eqn:Hactive; simpl.
      * split; [|lia]. split; [|reflexivity]. intros _. exists 0.
        rewrite Nat.add_0_r. split; [lia|]. split; [now exists state|]. intros j Hj. lia.
      * destruct (IH (paused (fixed 5000) (called c))) as [Hiff Hbound]. simpl in *.
        split; [|lia]. rewrite Hiff. split.
        -- intros [k [Hk [[s [Hs Hs']] Hbefore]]]. exists (S k). split; [lia|]. split.
           ++ exists s. replace (made c + S k) with (S (made c + k)) by lia. now split.
           ++ intros [|j] Hj.
              ** rewrite Nat.add_0_r. now exists state.
              ** replace (made c + S j) with (S (made c + j)) by lia. apply Hbefore. lia.
        -- intros [k [Hk [[s [Hs Hs']] Hbefore]]].
           destruct k as [|k].
           ++ rewrite Nat.add_0_r in Hs. congruence.
           ++ exists k. split; [lia|]. split.
              ** exists s. replace (S (made c + k)) with (made c + S k) by lia. now split.
              ** intros j Hj. replace (S (made c + j)) with (made c + S j) by lia.
                 apply Hbefore. lia.
    + simpl. split; [|lia]. split; [discriminate|].
      intros [k [Hk [[s [Hs Hs']] Hbefore]]].
      destruct k as [|k].
      * rewrite Nat.add_0_r in Hs. congruence.
      * destruct (Hbefore 0 (Nat.lt_0_succ k)) as [s' [Hs0 _]].
        rewrite Nat.add_0_r in Hs0. congruence.
Qed.

End Polling.

(** ** When the fetch answers 200 *)

Section FetchAnswer.
Context `{E : Engine}.
Import types cloudflareFetchHandler.

Lemma fetchable_fields (event : any) :
  fetchable event = true ->
  exists id connectorParams,
    member event "id" = Normal id /\
    member event "connectorParams" = Normal connectorParams /\
    nullish connectorParams = false.
Proof.
  unfold fetchable. intros Hfetchable.
  destruct (member event "connectorParams") as [connectorParams|] eqn:Hparams; [|discriminate].
  destruct (member_defined event "id" (member_normal _ _ _ Hparams)) as [id Hid].
  exists id, connectorParams. repeat split; try assumption.
  now destruct (nullish connectorParams).
Qed.

(** An event the fetch cannot work on is answered 500. *)
Lemma fetch_without_params (event : any) (w : World) :
  fetchable event = false ->
  exists error,
    fst (handler event w)
    = Normal (failure "Failed to fetch Cloudflare data" error
                      (clock w (S (clock_reads w)))).
Proof.
  unfold fetchable, handler, try_catch, bind, lift.
  destruct (member event "id") as [id|e] eqn:Hid.
  2:{ intros _. eexists; reflexivity. }
  pose proof (member_normal _ _ _ Hid) as Hevent.
  rewrite (member_property event "connectorParams" Hevent).
  destruct (nullish (property event "connectorParams")) eqn:Hnull; simpl; [|discriminate].
  intros _. rewrite (member_nullish _ "exchange_id" Hnull). unfold TypeError. simpl.
  eexists; reflexivity.
Qed.

(** X22: the fetch answers 200 exactly when [event.connectorParams] can
    be read and is neither [null] nor [undefined], and the request is
    answered with a body that parses: the status of the response plays
    no part. Otherwise it answers 500. *)
Theorem fetch_answers_200_iff (event : any) (w : World)
  (answer : LambdaResponse) (w' : World) :
  handler event w = (Normal answer, w') ->
  (statusCode answer = 200%Z <->
   fetchable event = true /\
   exists res_statusCode parsedData,
     network w (requests w) = response res_statusCode (valid parsedData) /\
     parsedData <> JUndefined).
Proof.
  intros Hrun. destruct (fetchable event) eqn:Hfetchable.
  - destruct (fetchable_fields event Hfetchable) as [id [params [Hid [Hparams Hnull]]]].
    destruct (network w (requests w)) as [error|code [v|parseError]] eqn:Hnet.
    + pose proof (fetch_answers_500_on_request_error event id params w error
                    Hid Hparams Hnull Hnet) as Hfst.
      rewrite Hrun in Hfst. simpl in Hfst. injection Hfst as ->. simpl.
      split; [discriminate|]. intros [_ [c [v [Habs _]]]]. discriminate.
    + assert (Hv : v = JUndefined \/ v <> JUndefined)
        by (destruct v; (now left) || (right; discriminate)).
      destruct Hv as [->|Hv].
      * split; [|intros [_ [c [v [Hresp Hv]]]]; congruence].
        intros Hstatus. exfalso.
        unfold handler, try_catch, bind, lift, makeCloudflareRequest, bind, https_request
          in Hrun.
        rewrite Hid, Hparams in Hrun.
        destruct (member_defined params "exchange_id" Hnull) as [x Hx].
        destruct (member_defined params "ticker_symbol" Hnull) as [y Hy].
        rewrite Hx, Hy, Hnet in Hrun. simpl in Hrun.
        injection Hrun as <- _. discriminate.
      * pose proof (fetch_answers_200_on_any_status event id params w code v
                      Hid Hparams Hnull Hnet Hv) as Hfst.
        rewrite Hrun in Hfst. simpl in Hfst. injection Hfst as ->. simpl.
        split; [|reflexivity]. intros _. split; [reflexivity|]. now exists code, v.
    + pose proof (fetch_answers_500_on_unparseable_body event id params w code parseError
                    Hid Hparams Hnull Hnet) as Hfst.
      rewrite Hrun in Hfst. simpl in Hfst. injection Hfst as ->. simpl.
      split; [discriminate|]. intros [_ [c [v [Habs _]]]]. discriminate.
  - destruct (fetch_without_params event w Hfetchable) as [error Hfst].
    rewrite Hrun in Hfst. simpl in Hfst. injection Hfst as ->. simpl.
    split; [discriminate|]. intros [Habs _]. discriminate.
Qed.

(** X23: when the event can be worked on, the answer of the fetch tells
    how its request failed: a request that emits an error is answered
    500 with [Request failed: ] and the message of that error, a body
    that does not parse with [Failed to parse response: ] and the message
    of the parser, under the same [error]; the time of the answer is the
    second reading of the clock. *)
Theorem fetch_reports_the_failed_request (event : any) (w : World) :
  fetchable event = true ->
  (forall error, network w (requests w) = request_error error ->
     fst (handler event w)
     = Normal (failure "Failed to fetch Cloudflare data"
                 (mkError ("Request failed: " ++ message error))
                 (clock w (S (clock_reads w))))) /\
  (forall res_statusCode parseError,
     network w (requests w) = response res_statusCode (invalid parseError) ->
     fst (handler event w)
     = Normal (failure "Failed to fetch Cloudflare data"
                 (mkError ("Failed to parse response: " ++ message parseError))
                 (clock w (S (clock_reads w))))).
Proof.
  intros Hfetchable.
  destruct (fetchable_fields event Hfetchable) as [id [params [Hid [Hparams Hnull]]]].
  split.
  - intros error Hnet. now apply (fetch_answers_500_on_request_error event id params).
  - intros code parseError Hnet.
    now apply (fetch_answers_500_on_unparseable_body event id params w code).
Qed.

End FetchAnswer.

(** ** The first three states of the machine *)

Section FirstStates.
Context `{E : Engine}.
Import types.

(** X24: whatever the input of an execution and whatever the world, the
    first three functions, each run on the answer of the one before, all
    answer 200 and leave the world as it was: the provider's response
    comes out of the decryption with its [secrets] replaced, and the
    extraction lists the two organisations of the provider, 155 and 148,
    in that order, each with its [connectorParams], which the fetch can
    work on. *)
Theorem provider_to_extraction (event : any) (w : World) :
  exists provided decrypted extractedOrgs,
    providerEndpoint.handler event w = (Normal provided, w) /\
    statusCode provided = 200%Z /\
    decryptionHandler.handler (as_event provided) w = (Normal decrypted, w) /\
    statusCode decrypted = 200%Z /\
    member (body decrypted) "secrets" = Normal (JString "decrypted-secret-data") /\
    extractOrgs.handler (as_event decrypted) w
    = (Normal (mkLambdaResponse 200 (JObject [("orgIds", JArray extractedOrgs)])), w) /\
    extractedOrgs
    = map extracted
          [providerEndpoint.org "155" "AMZN" "MSFT-458, NFLX-458, GOOGL-458";
           providerEndpoint.org "148" "MSFT" "AMZN-458, NFLX-458, GOOGL-458"] /\
    map (fun org => member org "id") extractedOrgs
    = [Normal (JString "155"); Normal (JString "148")] /\
    forallb fetchable extractedOrgs = true.
Proof.
  eexists _, _, _.
  split; [reflexivity|]. split; [reflexivity|].
  split; [reflexivity|]. split; [reflexivity|].
  split; [reflexivity|]. split; [reflexivity|].
  split; [reflexivity|]. split; reflexivity.
Qed.

End FirstStates.

(** ** The properties at the example inputs *)

Section WorkedWriter.
Import types prepareDataToFiles Examples Cases.
#[local] Existing Instance integer_engine.

Lemma handler_answers_200_iff_writable_witness :
  forallb writable (batchResults single_batch) = true /\
  forallb writable (batchResults mixed_batch) = false.
Proof.
  split.
  - destruct (handler single_batch world) as [[answer|e] w'] eqn:Hrun.
    + apply (proj1 (handler_answers_200_iff_writable single_batch world answer w'
                      (fun _ => eq_refl) Hrun)).
      vm_compute in Hrun. now injection Hrun as <- _.
    + vm_compute in Hrun. discriminate.
  - destruct (handler mixed_batch world) as [[answer|e] w'] eqn:Hrun.
    + pose proof (handler_answers_200_iff_writable mixed_batch world answer w'
                    (fun _ => eq_refl) Hrun) as [_ Hback].
      destruct (forallb writable (batchResults mixed_batch)); [|reflexivity].
      specialize (Hback eq_refl). vm_compute in Hrun. injection Hrun as <- _. discriminate.
    + vm_compute in Hrun. discriminate.
Defined.

Lemma handler_summary_witness :
  clock_reads (snd (handler single_batch world)) = 2.
Proof.
  destruct (handler single_batch world) as [[answer|e] w'] eqn:Hrun.
  - refine (proj2 (handler_summary single_batch world answer w' Hrun _)).
    vm_compute in Hrun. now injection Hrun as <- _.
  - vm_compute in Hrun. discriminate.
Defined.


Lemma handler_stops_at_rejected_command_witness :
  fst (handler two_entries fourth_denied)
  = Normal (failure "Failed to process data" denied (ticking 1)) /\
  s3_puts (snd (handler two_entries fourth_denied))
  = [json_object "stepfunction-poc-bucket-12345" "2024-03-21T05:46:40.000Z"
                 (fetch "155" nested);
     csv_object "stepfunction-poc-bucket-12345" "2024-03-21T05:46:40.000Z"
                (fetch "155" nested) ("a.b,a.c,d" ++ newline ++ "1,2,3");
     json_object "stepfunction-poc-bucket-12345" "2024-03-21T05:46:40.000Z"
                 (fetch "148" with_array)] /\
  s3_commands (snd (handler two_entries fourth_denied)) = 4.
Proof.
  refine (proj2 (handler_stops_at_rejected_command two_entries fourth_denied
                   [mkBatchResult 200 (fetched (fetch "155" nested))]
                   (fetch "148" with_array) [] denied eq_refl eq_refl eq_refl _)
            eq_refl eq_refl ("a.0,a.1.z,d" ++ newline ++ "1,,x") eq_refl).
  intros [|[|n]] Hn; [reflexivity|reflexivity|simpl in Hn; lia].
Defined.

End WorkedWriter.

Section WorkedStages.
Import types Examples Cases.
#[local] Existing Instance integer_engine.

Lemma decryption_answers_200_iff_witness :
  orgs_readable from_provider = true /\ orgs_readable without_orgs = false.
Proof.
  split.
  - destruct (decryptionHandler.handler from_provider world) as [[answer|e] w'] eqn:Hrun.
    + apply (proj1 (decryption_answers_200_iff from_provider world answer w' Hrun)).
      vm_compute in Hrun. now injection Hrun as <- _.
    + vm_compute in Hrun. discriminate.
  - destruct (orgs_readable without_orgs) eqn:Hreadable; [|reflexivity].
    destruct (decryptionHandler.handler without_orgs world) as [[answer|e] w'] eqn:Hrun.
    + pose proof (proj2 (decryption_answers_200_iff without_orgs world answer w' Hrun)
                    Hreadable) as Hstatus.
      vm_compute in Hrun. injection Hrun as <- _. discriminate.
    + vm_compute in Hrun. discriminate.
Defined.

Lemma decryption_adds_missing_secrets_witness :
  decryptionHandler.handler without_secrets world
  = (Normal (mkLambdaResponse 200
       (JObject [("providerId", JString "provider-1");
                 ("orgs", JArray [providerEndpoint.org "155" "AMZN" "MSFT-458"]);
                 ("secrets", JString "decrypted-secret-data")])), world).
Proof.
  exact (decryption_adds_missing_secrets without_secrets
           [("providerId", JString "provider-1");
            ("orgs", JArray [providerEndpoint.org "155" "AMZN" "MSFT-458"])]
           (JArray [providerEndpoint.org "155" "AMZN" "MSFT-458"]) world
           eq_refl eq_refl eq_refl eq_refl).
Defined.

Lemma decryption_twice_witness :
  exists answer,
    decryptionHandler.handler from_provider world = (Normal answer, world) /\
    decryptionHandler.handler (as_event answer) offline = (Normal answer, offline).
Proof.
  destruct (decryptionHandler.handler from_provider world) as [[answer|e] w'] eqn:Hrun.
  - pose proof (decryption_twice from_provider (entries providerEndpoint.response)
                  world w' answer eq_refl Hrun) as Htwice.
    vm_compute in Hrun. injection Hrun as <- <-.
    eexists. split; [reflexivity|]. exact (Htwice eq_refl offline).
  - vm_compute in Hrun. discriminate.
Defined.

Lemma decryption_keeps_the_shape_witness :
  exists decryptedData,
    decryptionHandler.handler from_provider world
    = (Normal (mkLambdaResponse 200 decryptedData), world) /\
    is_ProviderResponse decryptedData = true.
Proof.
  exact (decryption_keeps_the_shape from_provider providerEndpoint.response world
           eq_refl eq_refl).
Defined.

Lemma extraction_answers_200_iff_witness :
  extractable from_provider = true /\ extractable hidden_toString = false.
Proof.
  split.
  - destruct (extractOrgs.handler from_provider world) as [[answer|e] w'] eqn:Hrun.
    + apply (proj1 (extraction_answers_200_iff from_provider world answer w' Hrun)).
      vm_compute in Hrun. now injection Hrun as <- _.
    + vm_compute in Hrun. discriminate.
  - destruct (extractable hidden_toString) eqn:Hextractable; [|reflexivity].
    destruct (extractOrgs.handler hidden_toString world) as [[answer|e] w'] eqn:Hrun.
    + pose proof (proj2 (extraction_answers_200_iff hidden_toString world answer w' Hrun)
                    Hextractable) as Hstatus.
      vm_compute in Hrun. injection Hrun as <- _. discriminate.
    + vm_compute in Hrun. discriminate.
Defined.

Lemma extraction_maps_any_elements_witness :
  extractOrgs.handler odd_orgs world
  = (Normal (mkLambdaResponse 200
       (JObject [("orgIds",
                  JArray [JObject [("id", JUndefined); ("connectorParams", JUndefined)];
                          JObject [("id", JString "155");
                                   ("connectorParams", JUndefined)]])])), world).
Proof.
  exact (extraction_maps_any_elements odd_orgs
           [JNumber 7%Z; JObject [("orgId", JString "155")]] world eq_refl eq_refl).
Defined.

Lemma extraction_after_decryption_witness :
  exists answer,
    decryptionHandler.handler from_provider world = (Normal answer, world) /\
    extractOrgs.handler (as_event answer) offline = extractOrgs.handler from_provider offline.
Proof.
  destruct (decryptionHandler.handler from_provider world) as [[answer|e] w'] eqn:Hrun.
  - pose proof (extraction_after_decryption from_provider (entries providerEndpoint.response)
                  world w' answer eq_refl Hrun) as Hafter.
    vm_compute in Hrun. injection Hrun as <- <-.
    eexists. split; [reflexivity|]. exact (Hafter eq_refl offline).
  - vm_compute in Hrun. discriminate.
Defined.

Lemma fetch_sends_one_request_or_none_witness :
  requests (snd (cloudflareFetchHandler.handler JNull world)) = 0 /\
  exists error,
    fst (cloudflareFetchHandler.handler JNull world)
    = Normal (failure "Failed to fetch Cloudflare data" error (ticking 1)).
Proof.
  destruct (fetch_sends_one_request_or_none JNull world) as [Hrequests Hanswer].
  split; [exact Hrequests|exact (Hanswer eq_refl)].
Defined.

Lemma fetch_of_extracted_org_witness :
  exists extractedOrg,
    extractOrgs.extract (providerEndpoint.org "155" "AMZN" "MSFT-458") = Normal extractedOrg /\
    fst (cloudflareFetchHandler.handler extractedOrg world)
    = Normal (mkLambdaResponse 200
        (JObject [("orgId", JString "155");
                  ("connectorParams",
                   property (providerEndpoint.org "155" "AMZN" "MSFT-458") "connectorParams");
                  ("radarData", forbidden);
                  ("timestamp", JString "2024-03-21T05:46:40.000Z")])).
Proof.
  destruct (fetch_of_extracted_org (providerEndpoint.org "155" "AMZN" "MSFT-458") world
              (Some 403%Z) forbidden eq_refl eq_refl)
    as [extractedOrg [id [connectorParams [Hextract [Hid [Hparams Hanswer]]]]]].
  - discriminate.
  - exists extractedOrg. split; [exact Hextract|].
    injection Hid as <-. injection Hparams as <-. exact Hanswer.
Defined.

Lemma fetch_answers_200_iff_witness :
  exists answer w',
    cloudflareFetchHandler.handler extracted_org offline = (Normal answer, w') /\
    statusCode answer <> 200%Z.
Proof.
  destruct (cloudflareFetchHandler.handler extracted_org offline)
    as [[answer|e] w'] eqn:Hrun.
  - exists answer, w'. split; [reflexivity|]. intros Hstatus.
    destruct (proj1 (fetch_answers_200_iff extracted_org offline answer w' Hrun) Hstatus)
      as [_ [res_statusCode [parsedData [Hnet _]]]].
    discriminate.
  - vm_compute in Hrun. discriminate.
Defined.

Lemma fetch_reports_the_failed_request_witness :
  fst (cloudflareFetchHandler.handler extracted_org offline)
  = Normal (failure "Failed to fetch Cloudflare data"
              (mkError "Request failed: read ECONNRESET") (ticking 1)).
Proof.
  exact (proj1 (fetch_reports_the_failed_request extracted_org offline eq_refl)
           reset eq_refl).
Defined.

Lemma convertToCSV_table_with_arrays_witness :
  prepareDataToFiles.convertToCSV (fetch "155" with_array)
  = Normal ("a.0,a.1.z,d" ++ newline ++ "1,,x") /\
  split line_feed ("a.0,a.1.z,d" ++ newline ++ "1,,x") = ["a.0,a.1.z,d"; "1,,x"] /\
  nth_error (split comma "a.0,a.1.z,d") 1 = Some "a.1.z" /\
  nth_error (split comma "1,,x") 1 = Some "".
Proof.
  pose proof (convertToCSV_table_with_arrays (fetch "155" with_array) eq_refl)
    as [Hcsv [Hlines [_ Hcells]]].
  destruct (Hcells 1 ["a"; "1"; "z"] (@JNull integer_engine) eq_refl) as [Hname Hcell].
  split; [exact Hcsv|]. split; [exact Hlines|]. split; [exact Hname|exact Hcell].
Defined.

End WorkedStages.

Section WorkedRetries.
Import createStateMachine Cases.

Lemma retryWithBackoff_returns_first_success_witness :
  fst (retryWithBackoff 10 2000 twice_in_conflict)
  = returned "arn:aws:lambda:us-east-1:000000000000:function:f" /\
  made (snd (retryWithBackoff 10 2000 twice_in_conflict)) = 3.
Proof.
  destruct (retryWithBackoff_returns_first_success string 10 2000 twice_in_conflict 2
              "arn:aws:lambda:us-east-1:000000000000:function:f")
    as [Hvalue [Hmade _]].
  - lia.
  - intros [|[|j]] Hj; [eexists; reflexivity|eexists; reflexivity|lia].
  - reflexivity.
  - split; [exact Hvalue|exact Hmade].
Defined.

Lemma retryWithBackoff_throws_last_error_witness :
  made (snd (retryWithBackoff 3 2000 always_rejected)) = 3.
Proof.
  exact (proj1 (retryWithBackoff_throws_last_error string 3 2000 always_rejected
                  (Some forbidden_call) eq_refl)).
Defined.

Lemma retryWithBackoff_waits_out_conflicts_witness :
  waited (snd (retryWithBackoff 3 2000 always_in_conflict))
  = [backoff 2000 twofold 0; backoff 2000 twofold 1; backoff 2000 twofold 2].
Proof.
  apply (proj2 (retryWithBackoff_waits_out_conflicts string 3 2000 always_in_conflict)).
  intros j Hj. exists conflict. split; reflexivity.
Defined.

Lemma waitForLambdaFunction_true_iff_witness :
  fst (waitForLambdaFunction 10 pending_twice) = true.
Proof.
  apply (proj1 (waitForLambdaFunction_true_iff 10 pending_twice)).
  exists 2. split; [lia|]. split.
  - eexists. split; reflexivity.
  - intros [|[|j]] Hj; [eexists; split; reflexivity|eexists; split; reflexivity|lia].
Defined.

End WorkedRetries.
